(** * Trade-export pipeline: [processData], [downloadCSV] and the BCG view

    A shallow embedding of [src/lib/dataUtils.ts] and of the [useMemo]
    block of the BCG matrix component, with the properties of the
    specification proved about it; then of the axes of the BCG matrix,
    of the [useMemo] block of the trend chart, and of the year list and
    the upload handler of the application, with properties read off the
    code.

    Conventions of the embedding.
    - A JavaScript string is the list of its UTF-16 code units, so that
      [substring], [split], [trim] and [includes] count what the engine
      counts.  [js "..."] turns a literal of this file into that form.
    - A JavaScript number is an exact rational ([Qc]); a number that is
      an integer by construction (a year) is a [Z].  [NaN] only arises
      from [parseInt] and [parseFloat] and is the [None] of their result.
      Rounding, infinities and signed zeros are outside this part of
      the embedding; the module [Binary64] repeats steps 1 to 3 of
      [processData] over binary64 numbers, for the statements that
      depend on exactness.
    - Built-ins whose result depends on the binary representation of
      numbers ([parseFloat], [String] of a number, [toFixed]) are the
      fields of the class [Builtins]; every theorem holds for every
      instance, and [exact_builtins] is the instance used in examples.
    - [parseInt], [substring], [replace], [trim], [split], [includes]
      and [Array.prototype.sort] are defined here; [Papa.unparse] of the
      PapaParse library is the field of the class [Papa]. *)

From Stdlib Require Import ZArith QArith Qcanon Qround List Lia Ascii String.
From Stdlib Require Import Sorting.Permutation Sorting.Sorted DecimalZ DecimalPos.
From stdpp Require Import base option list gmap.
From Stdlib Require Floats.
Import ListNotations.

Local Open Scope Z_scope.

(** ** Strings as UTF-16 code units *)

Definition code_unit := N.
Definition jsstring := list code_unit.

Definition jsstring_eq_dec : forall s t : jsstring, {s = t} + {s <> t} :=
  List.list_eq_dec N.eq_dec.

Definition jsstring_eqb (s t : jsstring) : bool :=
  if jsstring_eq_dec s t then true else false.

(** Decoder for the literals of this file, which Rocq stores as UTF-8
    bytes; one-, two- and three-byte sequences cover the Basic
    Multilingual Plane, where one character is one code unit. *)
Fixpoint utf8_decode (bs : list N) : jsstring :=
  match bs with
  | [] => []
  | b0 :: r0 =>
      if (b0 <? 128)%N then b0 :: utf8_decode r0
      else
        match r0 with
        | [] => []
        | b1 :: r1 =>
            if (b0 <? 224)%N
            then ((b0 mod 32) * 64 + b1 mod 64)%N :: utf8_decode r1
            else
              match r1 with
              | [] => []
              | b2 :: r2 =>
                  ((b0 mod 16) * 4096 + (b1 mod 64) * 64 + b2 mod 64)%N
                    :: utf8_decode r2
              end
        end
  end.

Definition js (s : string) : jsstring :=
  utf8_decode (List.map Byte.to_N (list_byte_of_string s)).

(** [WhiteSpace] and [LineTerminator] of ECMAScript: the characters that
    [parseInt] skips and that [trim] removes. *)
Definition is_whitespace (c : code_unit) : bool :=
  List.existsb (N.eqb c)
    [9; 10; 11; 12; 13; 32; 160; 5760; 8232; 8233; 8239; 8287; 12288; 65279]%N
  || ((8192 <=? c) && (c <=? 8202))%N.

Fixpoint skip_whitespace (s : jsstring) : jsstring :=
  match s with
  | [] => []
  | c :: s' => if is_whitespace c then skip_whitespace s' else s
  end.

(** [s.trim()] *)
Definition trim (s : jsstring) : jsstring :=
  List.rev (skip_whitespace (List.rev (skip_whitespace s))).

(** [s.substring(0, n)] *)
Definition substring0 (n : nat) (s : jsstring) : jsstring := firstn n s.

Definition comma : code_unit := 44%N.
Definition fullwidth_comma : code_unit := 65292%N.
Definition hyphen : code_unit := 45%N.
Definition plus_sign : code_unit := 43%N.

(** [s.replace(/,/g, '')] *)
Definition remove_commas (s : jsstring) : jsstring :=
  List.filter (fun c => negb (N.eqb c comma)) s.

(** [s.split(/[,，]/)]: the pieces between separators, at least one. *)
Fixpoint split_on (sep : code_unit -> bool) (s : jsstring) : list jsstring :=
  match s with
  | [] => [[]]
  | c :: s' =>
      if sep c then [] :: split_on sep s'
      else
        match split_on sep s' with
        | [] => [[c]]
        | piece :: pieces => (c :: piece) :: pieces
        end
  end.

Fixpoint starts_with (k s : jsstring) : bool :=
  match k, s with
  | [], _ => true
  | _ :: _, [] => false
  | a :: k', b :: s' => N.eqb a b && starts_with k' s'
  end.

(** [s.includes(k)] *)
Fixpoint includes (s k : jsstring) : bool :=
  starts_with k s ||
  match s with
  | [] => false
  | _ :: s' => includes s' k
  end.

(** ** Integers to and from decimal text *)

Definition digit_value (c : code_unit) : option Z :=
  if ((48 <=? c) && (c <=? 57))%N then Some (Z.of_N (c - 48)) else None.

(** The longest prefix of decimal digits, read left to right; [None]
    when the text does not start with a digit. *)
Fixpoint read_digits (acc : option Z) (s : jsstring) : option Z :=
  match s with
  | [] => acc
  | c :: s' =>
      match digit_value c with
      | Some d => read_digits (Some (10 * default 0 acc + d)) s'
      | None => acc
      end
  end.

(** [parseInt(s, 10)]: leading white space is skipped, one sign is
    accepted, then the longest run of digits is read; the result is
    [NaN] (here [None]) when there is no digit. *)
Definition parseInt (s : jsstring) : option Z :=
  match skip_whitespace s with
  | c :: r =>
      if N.eqb c hyphen then Z.opp <$> read_digits None r
      else if N.eqb c plus_sign then read_digits None r
      else read_digits None (c :: r)
  | [] => None
  end.

Fixpoint uint_digits (u : Decimal.uint) : jsstring :=
  match u with
  | Decimal.Nil => []
  | Decimal.D0 u => 48%N :: uint_digits u
  | Decimal.D1 u => 49%N :: uint_digits u
  | Decimal.D2 u => 50%N :: uint_digits u
  | Decimal.D3 u => 51%N :: uint_digits u
  | Decimal.D4 u => 52%N :: uint_digits u
  | Decimal.D5 u => 53%N :: uint_digits u
  | Decimal.D6 u => 54%N :: uint_digits u
  | Decimal.D7 u => 55%N :: uint_digits u
  | Decimal.D8 u => 56%N :: uint_digits u
  | Decimal.D9 u => 57%N :: uint_digits u
  end.

(** The text of an integer inside a template literal ([`${n}`]): its
    decimal digits, after a minus sign when negative. *)
Definition Z_toString (n : Z) : jsstring :=
  match Z.to_int n with
  | Decimal.Pos u => uint_digits u
  | Decimal.Neg u => hyphen :: uint_digits u
  end.

(** ** Numbers *)

Definition Qc_of_Z (z : Z) : Qc := Q2Qc (inject_Z z).

Definition Qc_eqb (x y : Qc) : bool := if Qc_eq_dec x y then true else false.
Definition Qc_ltb (x y : Qc) : bool :=
  match (x ?= y)%Qc with Lt => true | _ => false end.
Definition Qc_leb (x y : Qc) : bool :=
  match (x ?= y)%Qc with Gt => false | _ => true end.

(** [Math.abs], [Math.min], [Math.max] *)
Definition Qcabs (x : Qc) : Qc := if Qc_ltb x 0 then (- x)%Qc else x.
Definition Qcmin (x y : Qc) : Qc := if Qc_leb x y then x else y.
Definition Qcmax (x y : Qc) : Qc := if Qc_leb x y then y else x.

(** [v || d] on a number that may be [undefined] or [NaN] (both [None]):
    the falsy cases, which also include zero, give [d]. *)
Definition num_or (v : option Qc) (d : Qc) : Qc :=
  match v with
  | Some x => if Qc_eqb x 0 then d else x
  | None => d
  end.

(** The built-ins that are taken as given. *)
Class Builtins := {
  (** [parseFloat(s)]; [None] is [NaN] *)
  parseFloat : jsstring -> option Qc;
  (** [String(x)] for a number [x] *)
  Number_toString : Qc -> jsstring;
  (** [x.toFixed(digits)] *)
  toFixed : Qc -> nat -> jsstring
}.

(** ** Data model *)

(** The field [数据年月] is a string or a number. *)
Inductive period :=
  | PeriodText (s : jsstring)
  | PeriodNumber (x : Qc).

(** The field [人民币] is a string or a number, and the code also
    accepts [undefined] and [null]. *)
Inductive amount :=
  | AmountMissing
  | AmountText (s : jsstring)
  | AmountNumber (x : Qc).

(** [interface RawData]; the commodity and partner codes are never read.
    A partner name that is absent is [None]. *)
Module RawData.
Record t := {
  数据年月 : period;
  贸易伙伴名称 : option jsstring;
  人民币 : amount
}.
End RawData.

(** The rows of [cleanedData] and of [aggregated]. *)
Record AggregatedRecord := {
  年份 : Z;
  贸易伙伴名称 : jsstring;
  出口额 : Qc
}.

(** The rows of [withMarketShare]: [{...row, 市场份额}]. *)
Record ShareRecord := {
  share_row :> AggregatedRecord;
  市场份额 : Qc
}.

(** [interface ProcessedData]: [{...row, 去年出口额, 同比增速}]; a [null]
    growth is [None]. *)
Record ProcessedData := {
  metric_row :> ShareRecord;
  去年出口额 : Qc;
  同比增速 : option Qc
}.

Definition 未知 : jsstring := js "未知".

(** ** [Array.prototype.sort]

    The sort is stable, and with a consistent comparator its result is
    the one stable arrangement in which no element is followed by one
    that compares below it; insertion from the right computes it.  The
    comparator returns a number and only its sign is used. *)
Section Sort.
Context {A : Type} (compareFn : A -> A -> Qc).

Fixpoint sort_insert (x : A) (l : list A) : list A :=
  match l with
  | [] => [x]
  | y :: l' =>
      if Qc_ltb 0 (compareFn x y) then y :: sort_insert x l' else x :: l
  end.

Definition sort (l : list A) : list A := fold_right sort_insert [] l.
End Sort.

(** ** [processData] *)

(** A plain object with string keys, as far as the code uses one: the
    properties in insertion order.  No key built by [processData] is an
    array index, so [Object.values] follows that order. *)
Section PlainObject.
Context {V : Type}.

Fixpoint obj_get (o : list (jsstring * V)) (k : jsstring) : option V :=
  match o with
  | [] => None
  | (k', v) :: o' => if jsstring_eqb k' k then Some v else obj_get o' k
  end.

(** [o[k] = v] *)
Fixpoint obj_set (o : list (jsstring * V)) (k : jsstring) (v : V)
  : list (jsstring * V) :=
  match o with
  | [] => [(k, v)]
  | (k', v') :: o' =>
      if jsstring_eqb k' k then (k, v) :: o' else (k', v') :: obj_set o' k v
  end.

Definition Object_values (o : list (jsstring * V)) : list V := List.map snd o.
End PlainObject.

Section ProcessData.
Context `{Builtins}.

(** Step 1, the export value of a row. *)
Definition rmb_of (v : amount) : Qc :=
  match v with
  | AmountMissing => 0
  | AmountText s => num_or (parseFloat (remove_commas s)) 0
  | AmountNumber x => num_or (Some x) 0
  end.

(** [String(row.数据年月)] *)
Definition yearStr_of (p : period) : jsstring :=
  match p with
  | PeriodText s => s
  | PeriodNumber x => Number_toString x
  end.

(** [parseInt(yearStr.substring(0, 4), 10)] *)
Definition year_of (row : RawData.t) : option Z :=
  parseInt (substring0 4 (yearStr_of (RawData.数据年月 row))).

(** [row.贸易伙伴名称 || '未知']: the empty string is falsy too. *)
Definition partner_of (row : RawData.t) : jsstring :=
  match RawData.贸易伙伴名称 row with
  | Some (c :: s) => c :: s
  | Some [] | None => 未知
  end.

(** One row of step 1: the mapped row when it passes
    [filter(row => !isNaN(row.年份))], [None] when it is filtered
    out. *)
Definition cleanRow (row : RawData.t) : option AggregatedRecord :=
  let rmb := rmb_of (RawData.人民币 row) in
  match year_of row with
  | Some year =>
      Some {| 年份 := year; 贸易伙伴名称 := partner_of row; 出口额 := rmb |}
  | None => None
  end.

(** [rawData.map(...).filter(row => !isNaN(row.年份))] *)
Definition cleanedData (rawData : list RawData.t) : list AggregatedRecord :=
  omap cleanRow rawData.

(** Step 2.  The key [`${curr.年份}-${curr.贸易伙伴名称}`]. *)
Definition key_of (curr : AggregatedRecord) : jsstring :=
  Z_toString (年份 curr) ++ hyphen :: 贸易伙伴名称 curr.

(** The body of the [reduce]: a first row of its key creates the entry
    [{年份, 贸易伙伴名称, 出口额: 0}], and every row is added to the
    export value of its entry ([acc[key].出口额 += curr.出口额]). *)
Definition aggregate_step (acc : list (jsstring * AggregatedRecord))
    (curr : AggregatedRecord) : list (jsstring * AggregatedRecord) :=
  let key := key_of curr in
  let entry :=
    match obj_get acc key with
    | Some e => e
    | None =>
        {| 年份 := 年份 curr; 贸易伙伴名称 := 贸易伙伴名称 curr; 出口额 := 0 |}
    end in
  obj_set acc key
    {| 年份 := 年份 entry; 贸易伙伴名称 := 贸易伙伴名称 entry;
       出口额 := (出口额 entry + 出口额 curr)%Qc |}.

(** [cleanedData.reduce(..., {})] *)
Definition aggregated (cleaned : list AggregatedRecord)
  : list (jsstring * AggregatedRecord) :=
  fold_left aggregate_step cleaned [].

(** [Object.values(aggregated)] *)
Definition aggregatedArray (rawData : list RawData.t) : list AggregatedRecord :=
  Object_values (aggregated (cleanedData rawData)).

(** Step 3, an object keyed by year:
    [acc[curr.年份] = (acc[curr.年份] || 0) + curr.出口额]. *)
Definition globalTotal_step (acc : gmap Z Qc) (curr : AggregatedRecord)
  : gmap Z Qc :=
  <[ 年份 curr := (num_or (acc !! 年份 curr) 0 + 出口额 curr)%Qc ]> acc.

Definition globalTotal (rows : list AggregatedRecord) : gmap Z Qc :=
  fold_left globalTotal_step rows ∅.

(** Step 4: [row.出口额 / (globalTotal[row.年份] || 1)]. *)
Definition withMarketShare (rows : list AggregatedRecord) : list ShareRecord :=
  let total := globalTotal rows in
  List.map (fun row =>
    {| share_row := row;
       市场份额 := (出口额 row / num_or (total !! 年份 row) 1)%Qc |}) rows.

(** Step 5.  [withMarketShare.find(r => r.年份 === row.年份 - 1 &&
    r.贸易伙伴名称 === row.贸易伙伴名称)] *)
Definition prevYearRow (shares : list ShareRecord) (row : ShareRecord)
  : option ShareRecord :=
  List.find (fun r : ShareRecord =>
    Z.eqb (年份 r) (年份 row - 1)
    && jsstring_eqb (贸易伙伴名称 r) (贸易伙伴名称 row)) shares.

(** [prevYearRow ? prevYearRow.出口额 : 0] *)
Definition prevExport_of (shares : list ShareRecord) (row : ShareRecord) : Qc :=
  match prevYearRow shares row with
  | Some r => 出口额 r
  | None => 0
  end.

(** The growth is left [null] unless [prevExport !== 0]. *)
Definition withGrowth (shares : list ShareRecord) (row : ShareRecord)
  : ProcessedData :=
  let prevExport := prevExport_of shares row in
  let yoyGrowth :=
    if Qc_eqb prevExport 0 then None
    else Some ((出口额 row - prevExport) / Qcabs prevExport)%Qc in
  {| metric_row := row; 去年出口额 := prevExport; 同比增速 := yoyGrowth |}.

Definition finalData (shares : list ShareRecord) : list ProcessedData :=
  List.map (withGrowth shares) shares.

(** Step 6, the comparator of the final sort: the difference of the
    years when they differ, else [b.出口额 - a.出口额]. *)
Definition byYearThenExport (a b : ProcessedData) : Qc :=
  if negb (Z.eqb (年份 a) (年份 b)) then Qc_of_Z (年份 a - 年份 b)
  else (出口额 b - 出口额 a)%Qc.

Definition processData (rawData : list RawData.t) : list ProcessedData :=
  sort byYearThenExport
    (finalData (withMarketShare (aggregatedArray rawData))).
End ProcessData.

(** ** An instance of the built-ins on exact decimals

    [parseFloat_exact] reads the decimal literals of [StrDecimalLiteral]
    (sign, digits, fraction, exponent) to their exact value; the literal
    [Infinity] has no rational value and is not read.
    [Number_toString_exact] prints an integer as its digits, which is
    what the built-in does below 10^21, and is only applied to integers
    in the examples.  [toFixed_exact] rounds the exact value, ties away
    from zero. *)
Module Exact.

Fixpoint span_digits (s : jsstring) : list Z * jsstring :=
  match s with
  | [] => ([], [])
  | c :: s' =>
      match digit_value c with
      | Some d => let '(ds, r) := span_digits s' in (d :: ds, r)
      | None => ([], s)
      end
  end.

Definition digits_value (ds : list Z) : Z :=
  fold_left (fun acc d => 10 * acc + d) ds 0.

Definition pow10 (e : Z) : Qc :=
  if e <? 0 then (/ Qc_of_Z (10 ^ (- e)))%Qc else Qc_of_Z (10 ^ e).

Definition read_exponent (s : jsstring) : Z :=
  match s with
  | c :: r =>
      if (N.eqb c 101 || N.eqb c 69)%N then
        let '(neg, r') :=
          match r with
          | d :: r'' =>
              if N.eqb d hyphen then (true, r'')
              else if N.eqb d plus_sign then (false, r'')
              else (false, r)
          | [] => (false, r)
          end in
        let ds := fst (span_digits r') in
        if neg then - digits_value ds else digits_value ds
      else 0
  | [] => 0
  end.

Definition read_unsigned (s : jsstring) : option Qc :=
  let '(ip, r1) := span_digits s in
  let '(fp, r2) :=
    match r1 with
    | c :: r => if N.eqb c 46 then span_digits r else ([], r1)
    | [] => ([], r1)
    end in
  match ip ++ fp with
  | [] => None
  | ds =>
      Some (Qc_of_Z (digits_value ds)
            * pow10 (read_exponent r2 - Z.of_nat (length fp)))%Qc
  end.

Definition parseFloat_exact (s : jsstring) : option Qc :=
  match skip_whitespace s with
  | c :: r =>
      if N.eqb c hyphen then Qcopp <$> read_unsigned r
      else if N.eqb c plus_sign then read_unsigned r
      else read_unsigned (c :: r)
  | [] => None
  end.

Definition Number_toString_exact (x : Qc) : jsstring :=
  Z_toString (Qfloor x).

Definition toFixed_exact (x : Qc) (digits : nat) : jsstring :=
  let n := Qfloor (Qcabs x * Qc_of_Z (10 ^ Z.of_nat digits)
                   + Q2Qc (1 # 2))%Qc in
  let ds := Z_toString n in
  let padded := repeat 48%N (digits + 1 - length ds)%nat ++ ds in
  let cut := (length padded - digits)%nat in
  (if Qc_ltb x 0 then [hyphen] else [])
    ++ firstn cut padded
    ++ (if Nat.eqb digits 0 then [] else 46%N :: skipn cut padded).

#[export] Instance exact_builtins : Builtins := {
  parseFloat := parseFloat_exact;
  Number_toString := Number_toString_exact;
  toFixed := toFixed_exact
}.
End Exact.

(** ** [downloadCSV] *)

(** A value handed to the CSV writer. *)
Inductive cell :=
  | CellNull
  | CellNumber (x : Qc)
  | CellText (s : jsstring).

(** [Papa.unparse] of the PapaParse library, on an array of objects
    given as their properties in order. *)
Class Papa := {
  unparse : list (list (jsstring * cell)) -> jsstring
}.

Definition percent_sign : code_unit := 37%N.
Definition byte_order_mark : code_unit := 65279%N.

(** What [downloadCSV] hands to the browser: the text of the blob, its
    type, and the [download] attribute of the link that is clicked. *)
Record Download := {
  download_text : jsstring;
  download_type : jsstring;
  download_filename : jsstring
}.

Section DownloadCSV.
Context `{Builtins}.

Definition csvRow (row : ProcessedData) : list (jsstring * cell) :=
  [ (js "年份", CellNumber (Qc_of_Z (年份 row)));
    (js "贸易伙伴名称", CellText (贸易伙伴名称 row));
    (js "市场份额", CellNumber (市场份额 row));
    (js "同比增速",
      match 同比增速 row with Some g => CellNumber g | None => CellNull end);
    (js "市场份额_展示",
      CellText (toFixed (市场份额 row * Qc_of_Z 100)%Qc 2 ++ [percent_sign]));
    (js "同比增速_展示",
      CellText
        match 同比增速 row with
        | Some g => toFixed (g * Qc_of_Z 100)%Qc 1 ++ [percent_sign]
        | None => []
        end) ].

Definition csvData (data : list ProcessedData) : list (list (jsstring * cell)) :=
  List.map csvRow
    (List.filter (fun r => bool_decide (is_Some (同比增速 r))) data).

Context `{Papa}.

Definition downloadCSV (data : list ProcessedData) (filename : jsstring)
  : Download :=
  let csv := unparse (csvData data) in
  {| download_text := byte_order_mark :: csv;
     download_type := js "text/csv;charset=utf-8;";
     download_filename := filename |}.
End DownloadCSV.

(** ** The BCG matrix: the [useMemo] block of the component *)

(** The state of the component that the block reads. *)
Record BCGState := {
  yMin : Qc;
  yMax : Qc;
  minShare : Qc;
  maxShare : Qc;
  countryFilter : jsstring
}.

(** The initial values of [useState]. *)
Definition initialState : BCGState :=
  {| yMin := Qc_of_Z (-1); yMax := Qc_of_Z 3;
     minShare := 0; maxShare := Qc_of_Z 100; countryFilter := [] |}.

(** [{...d, yPlot, label, fill}] *)
Record PlotRecord := {
  plot_row :> ProcessedData;
  yPlot : Qc;
  label : jsstring;
  fill : jsstring
}.

Record BCGView := {
  plotData : list PlotRecord;
  xRef : Qc;
  yRef : Qc
}.

Definition non_empty (s : jsstring) : bool :=
  match s with [] => false | _ :: _ => true end.

Section BCGMatrix.
Variables (data : list ProcessedData) (year : Z) (st : BCGState).

Definition filtered_by_year : list ProcessedData :=
  List.filter (fun d : ProcessedData =>
    Z.eqb (年份 d) year
    && bool_decide (is_Some (同比增速 d))
    && Qc_ltb 0 (市场份额 d)) data.

Definition filtered_by_share : list ProcessedData :=
  List.filter (fun d : ProcessedData =>
    let sharePct := (市场份额 d * Qc_of_Z 100)%Qc in
    Qc_leb (minShare st) sharePct && Qc_leb sharePct (maxShare st))
    filtered_by_year.

Definition keywords : list jsstring :=
  List.filter non_empty
    (List.map trim
       (split_on (fun c => N.eqb c comma || N.eqb c fullwidth_comma)
                 (countryFilter st))).

Definition filtered_by_country : list ProcessedData :=
  if non_empty (trim (countryFilter st)) then
    if (0 <? length keywords)%nat then
      List.filter (fun d : ProcessedData =>
        List.existsb (fun k => includes (贸易伙伴名称 d) k) keywords)
        filtered_by_share
    else filtered_by_share
  else filtered_by_share.

Definition byExportDesc (a b : ProcessedData) : Qc := (出口额 b - 出口额 a)%Qc.

(** [filtered] after the sort and [slice(0, 35)]. *)
Definition top35 : list ProcessedData :=
  firstn 35 (sort byExportDesc filtered_by_country).

Definition plotRecord (calculatedXRef calculatedYRef : Qc)
    (index : nat) (d : ProcessedData) : PlotRecord :=
  let yPlot :=
    Qcmax (yMin st) (Qcmin (default 0%Qc (同比增速 d)) (yMax st)) in
  let isHighShare := Qc_leb calculatedXRef (市场份额 d) in
  let isHighGrowth := Qc_leb calculatedYRef yPlot in
  let fill :=
    if isHighShare && isHighGrowth then js "#10b981"
    else if negb isHighShare && isHighGrowth then js "#f59e0b"
    else if isHighShare && negb isHighGrowth then js "#3b82f6"
    else js "#ef4444" in
  {| plot_row := d;
     yPlot := yPlot;
     label := if (index <? 20)%nat then 贸易伙伴名称 d else [];
     fill := fill |}.

Definition useMemo : BCGView :=
  let filtered := top35 in
  if (length filtered =? 0)%nat then
    {| plotData := []; xRef := 0; yRef := 0 |}
  else
    let calculatedXRef :=
      (fold_left (fun (sum : Qc) (d : ProcessedData) => sum + 市场份额 d)
                 filtered 0
       / Qc_of_Z (Z.of_nat (length filtered)))%Qc in
    let calculatedYRef := 0%Qc in
    {| plotData := imap (plotRecord calculatedXRef calculatedYRef) filtered;
       xRef := calculatedXRef;
       yRef := calculatedYRef |}.
End BCGMatrix.

(** The property names of a CSV row, which the writer prints as the
    header. *)
Definition csvColumns : list jsstring :=
  [ js "年份"; js "贸易伙伴名称"; js "市场份额"; js "同比增速";
    js "市场份额_展示"; js "同比增速_展示" ].

(** ** Example data *)

Definition rawRecord (p : period) (partner : option jsstring) (v : amount)
  : RawData.t :=
  {| RawData.数据年月 := p; RawData.贸易伙伴名称 := partner; RawData.人民币 := v |}.

Definition metricRecord (year : Z) (partner : jsstring)
    (export share previous : Qc) (growth : option Qc) : ProcessedData :=
  {| metric_row :=
       {| share_row :=
            {| 年份 := year; 贸易伙伴名称 := partner; 出口额 := export |};
          市场份额 := share |};
     去年出口额 := previous;
     同比增速 := growth |}.

(** The scenario of the specification: A exports "1,000" and B 500 in
    2023, A exported 800 in 2022. *)
Definition scenario_2023_A : RawData.t :=
  rawRecord (PeriodNumber (Qc_of_Z 202301)) (Some (js "A")) (AmountText (js "1,000")).
Definition scenario_2023_B : RawData.t :=
  rawRecord (PeriodNumber (Qc_of_Z 202301)) (Some (js "B")) (AmountNumber (Qc_of_Z 500)).
Definition scenario_2022_A : RawData.t :=
  rawRecord (PeriodNumber (Qc_of_Z 202201)) (Some (js "A")) (AmountNumber (Qc_of_Z 800)).
Definition scenario : list RawData.t :=
  [scenario_2023_A; scenario_2023_B; scenario_2022_A].

(** A record whose period is the text "invalid". *)
Definition invalid_row : RawData.t :=
  rawRecord (PeriodText (js "invalid")) (Some (js "B")) (AmountNumber (Qc_of_Z 500)).

(** A record of 2023 without a partner name, whose export value is the
    text "n/a". *)
Definition unparseable_amount : RawData.t :=
  rawRecord (PeriodText (js "2023-05")) None (AmountText (js "n/a")).

(** The records that [processData] returns for the scenario. *)
Definition result_2022_A : ProcessedData :=
  metricRecord 2022 (js "A") (Qc_of_Z 800) 1 0 None.
Definition result_2023_A : ProcessedData :=
  metricRecord 2023 (js "A") (Qc_of_Z 1000) (Q2Qc (2 # 3)) (Qc_of_Z 800)
    (Some (Q2Qc (1 # 4))).
Definition result_2023_B : ProcessedData :=
  metricRecord 2023 (js "B") (Qc_of_Z 500) (Q2Qc (1 # 3)) 0 None.

(** Two partners whose export values of one year cancel out. *)
Definition offsetting : list RawData.t :=
  [ rawRecord (PeriodText (js "2023")) (Some (js "A")) (AmountNumber (Qc_of_Z 5));
    rawRecord (PeriodText (js "2023")) (Some (js "B")) (AmountNumber (Qc_of_Z (-5))) ].
Definition offsetting_A : ProcessedData :=
  metricRecord 2023 (js "A") (Qc_of_Z 5) (Qc_of_Z 5) 0 None.
Definition offsetting_B : ProcessedData :=
  metricRecord 2023 (js "B") (Qc_of_Z (-5)) (Qc_of_Z (-5)) 0 None.

(** A state of the controls whose country filter holds separators
    only. *)
Definition blank_filter : BCGState :=
  {| yMin := Qc_of_Z (-1); yMax := Qc_of_Z 3;
     minShare := 0; maxShare := Qc_of_Z 100; countryFilter := js " , ，" |}.

(** ** Measures used in the statements *)

(** The sum of [f] over the elements of [l] that satisfy [p]. *)
Definition sum_where {A : Type} (p : A -> bool) (f : A -> Qc) (l : list A) : Qc :=
  fold_right (fun x s => if p x then (f x + s)%Qc else s) 0%Qc l.

Definition in_year (y : Z) (r : AggregatedRecord) : bool := Z.eqb (年份 r) y.

(** Sum of the export values of the rows of year [y]. *)
Definition export_sum (y : Z) (rows : list AggregatedRecord) : Qc :=
  sum_where (in_year y) 出口额 rows.

(** The year, partner and export value of each output record. *)
Definition rows_of (out : list ProcessedData) : list AggregatedRecord :=
  List.map (fun r : ProcessedData => r : AggregatedRecord) out.

(** Sum of the market shares of the records of year [y]. *)
Definition share_sum (y : Z) (out : list ProcessedData) : Qc :=
  sum_where (fun r : ProcessedData => in_year y r)
            (fun r : ProcessedData => 市场份额 r) out.

(** "Does not come after": the order that [sort] establishes for a
    comparator. *)
Definition precedes {A : Type} (compareFn : A -> A -> Qc) (a b : A) : Prop :=
  Qc_ltb 0 (compareFn a b) = false.

(** Ascending year, and descending export value within a year. *)
Definition year_asc_export_desc (a b : ProcessedData) : Prop :=
  年份 a < 年份 b \/ (年份 a = 年份 b /\ (出口额 b <= 出口额 a)%Qc).

Definition export_desc (a b : ProcessedData) : Prop :=
  (出口额 b <= 出口额 a)%Qc.

(** Sum of the coerced export values of the raw records whose year is
    [y]. *)
Definition raw_sum `{Builtins} (y : Z) (rawData : list RawData.t) : Qc :=
  sum_where (fun row => bool_decide (year_of row = Some y))
            (fun row => rmb_of (RawData.人民币 row)) rawData.

(** Every property of the accumulator is stored under the key of its
    own year and partner. *)
Definition keyed (acc : list (jsstring * AggregatedRecord)) : Prop :=
  Forall (fun kr => fst kr = key_of (snd kr)) acc.

(** Rows of year [y] and partner [n]. *)
Definition same_key (y : Z) (n : jsstring) (r : AggregatedRecord) : bool :=
  Z.eqb (年份 r) y && jsstring_eqb (贸易伙伴名称 r) n.

(** Sum of the coerced export values of the raw records whose year is
    [y] and whose partner is [n]. *)
Definition group_sum `{Builtins} (y : Z) (n : jsstring)
    (rawData : list RawData.t) : Qc :=
  sum_where
    (fun row => bool_decide (year_of row = Some y)
                && jsstring_eqb (partner_of row) n)
    (fun row => rmb_of (RawData.人民币 row)) rawData.

(** The record of year [y] and partner [n] written from the raw data
    alone: the sum of its group, that sum over the total of the year
    (over 1 when the total is zero), the sum of the same partner's group
    of the year before, and the growth between the two. *)
Definition metric_of `{Builtins} (rawData : list RawData.t) (y : Z)
    (n : jsstring) : ProcessedData :=
  let export := group_sum y n rawData in
  let total := raw_sum y rawData in
  let previous := group_sum (y - 1) n rawData in
  metricRecord y n export
    (export / (if Qc_eqb total 0 then 1 else total))%Qc
    previous
    (if Qc_eqb previous 0 then None
     else Some ((export - previous) / Qcabs previous)%Qc).

(** The year and partner of a row. *)
Definition key_pair (r : AggregatedRecord) : Z * jsstring :=
  (年份 r, 贸易伙伴名称 r).

(** ** The axes of the BCG matrix *)

(** [Math.min(x, ...xs)] and [Math.max(x, ...xs)]. *)
Definition Math_min (x : Qc) (xs : list Qc) : Qc := fold_left Qcmin xs x.
Definition Math_max (x : Qc) (xs : list Qc) : Qc := fold_left Qcmax xs x.

(** [xDomain = [minX * 0.6, maxX * 1.8]] over the shares of the plotted
    records; the component returns before it when nothing is plotted
    ([None]).  The decimal literals are read as fractions. *)
Definition xDomain (plot : list PlotRecord) : option (Qc * Qc) :=
  match List.map (fun d : PlotRecord => 市场份额 d) plot with
  | [] => None
  | x :: xs =>
      Some (Math_min x xs * Q2Qc (6 # 10), Math_max x xs * Q2Qc (18 # 10))%Qc
  end.

(** [yDomain = [yMin - 0.1, yMax + 0.1]] *)
Definition yDomain (st : BCGState) : Qc * Qc :=
  (yMin st - Q2Qc (1 # 10), yMax st + Q2Qc (1 # 10))%Qc.

(** The characters of which a text without keywords consists. *)
Definition separator_or_space (c : code_unit) : bool :=
  N.eqb c comma || N.eqb c fullwidth_comma || is_whitespace c.

(** ** The trend chart: the [useMemo] block of [LineChart] *)

(** A property key that is an array index: the canonical text of an
    integer from 0 to 2^32 - 2. *)
Definition array_index (k : jsstring) : option Z :=
  match parseInt k with
  | Some n =>
      if (0 <=? n) && (n <=? 4294967294) && jsstring_eqb (Z_toString n) k
      then Some n else None
  | None => None
  end.

Definition is_array_index {V : Type} (kv : jsstring * V) : bool :=
  match array_index (fst kv) with Some _ => true | None => false end.

Definition byIndex {V : Type} (a b : jsstring * V) : Qc :=
  Qc_of_Z (default 0 (array_index (fst a)) - default 0 (array_index (fst b))).

(** [Object.entries(o)]: the properties whose key is an array index in
    ascending order of the index, then the other properties in
    insertion order. *)
Definition Object_entries {V : Type} (o : list (jsstring * V))
  : list (jsstring * V) :=
  sort byIndex (List.filter is_array_index o)
  ++ List.filter (fun kv => negb (is_array_index kv)) o.

(** [{年份, 总出口额}]; the year is what [parseInt] gives for a property
    key, [None] for [NaN]. *)
Module TrendPoint.
Record t := {
  年份 : option Z;
  总出口额 : Qc
}.
End TrendPoint.

Module LineChart.

(** [acc[curr.年份] = (acc[curr.年份] || 0) + curr.出口额] on an object
    whose properties are enumerated afterwards; the key of a year is
    its text, the decimal digits for the years that [processData]
    produces. *)
Definition yearTotals_step (acc : list (jsstring * Qc)) (curr : ProcessedData)
  : list (jsstring * Qc) :=
  let key := Z_toString (年份 curr) in
  obj_set acc key (num_or (obj_get acc key) 0 + 出口额 curr)%Qc.

Definition yearTotals (data : list ProcessedData) : list (jsstring * Qc) :=
  fold_left yearTotals_step data [].

(** [(a, b) => a.年份 - b.年份]; a difference that is [NaN] counts as 0
    in a sort. *)
Definition byYear (a b : TrendPoint.t) : Qc :=
  match TrendPoint.年份 a, TrendPoint.年份 b with
  | Some x, Some y => Qc_of_Z (x - y)
  | _, _ => 0%Qc
  end.

(** [Object.entries(yearTotals).map(([year, total]) => ({年份:
    parseInt(year, 10), 总出口额: total})).sort(...)] *)
Definition plotData (data : list ProcessedData) : list TrendPoint.t :=
  sort byYear
    (List.map (fun entry : jsstring * Qc =>
                 {| TrendPoint.年份 := parseInt (fst entry);
                    TrendPoint.总出口额 := snd entry |})
              (Object_entries (yearTotals data))).
End LineChart.

(** ** The application: years on offer and the upload handler *)

Module App.

(** [Array.from(new Set(xs))]: the values in order of first
    occurrence. *)
Definition Set_values (xs : list Z) : list Z :=
  fold_left (fun s x => if existsb (Z.eqb x) s then s else s ++ [x]) xs [].

(** [(a, b) => a - b] *)
Definition byNumber (a b : Z) : Qc := Qc_of_Z (a - b).

(** [Array.from(new Set(processed.map(d => d.年份))).sort((a, b) => a - b)] *)
Definition years_of (processed : list ProcessedData) : list Z :=
  sort byNumber
    (Set_values (List.map (fun d : ProcessedData => 年份 d) processed)).

Definition availableYears (processedData : list ProcessedData) : list Z :=
  if (length processedData =? 0)%nat then [] else years_of processedData.

Inductive tab := trend | bcg | data.

(** The state of the component. *)
Record State := {
  rawData : list RawData.t;
  processedData : list ProcessedData;
  loading : bool;
  error : option jsstring;
  activeTab : tab;
  selectedYear : option Z
}.

Definition initialState : State :=
  {| rawData := []; processedData := []; loading := false; error := None;
     activeTab := trend; selectedYear := None |}.

(** What the handler meets: no file was chosen, [parseFile] resolved
    with records, or it was rejected with an error whose [message] may
    be missing. *)
Inductive upload :=
  | NoFile
  | Resolved (parsed : list RawData.t)
  | Rejected (message : option jsstring).

(** The state once [handleFileUpload] has run to its end. *)
Definition handleFileUpload `{Builtins} (st : State) (u : upload) : State :=
  match u with
  | NoFile => st
  | Resolved parsed =>
      let processed := processData parsed in
      let years := years_of processed in
      {| rawData := parsed;
         processedData := processed;
         loading := false;
         error := None;
         activeTab := activeTab st;
         selectedYear :=
           match last years with
           | Some latest => Some latest
           | None => selectedYear st
           end |}
  | Rejected message =>
      {| rawData := rawData st;
         processedData := processedData st;
         loading := false;
         error :=
           Some match message with
                | Some (c :: s) => c :: s
                | Some [] | None => js "Failed to parse file"
                end;
         activeTab := activeTab st;
         selectedYear := selectedYear st |}
  end.
End App.

(** Does a record of year [y] occur? *)
Definition has_year (y : Z) (data : list ProcessedData) : bool :=
  existsb (fun r : ProcessedData => Z.eqb (年份 r) y) data.

(** The point of the trend chart for year [y]. *)
Definition trendPoint (y : Z) (total : Qc) : TrendPoint.t :=
  {| TrendPoint.年份 := Some y; TrendPoint.总出口额 := total |}.

(** Both years are numbers and the first is the smaller. *)
Definition earlier_year (a b : TrendPoint.t) : Prop :=
  exists x y, TrendPoint.年份 a = Some x /\ TrendPoint.年份 b = Some y /\ x < y.

(** The five conditions under which the BCG matrix keeps a record: the
    selected year, a growth that is not null, a positive share, a
    share in per cent within the range of the controls, and, when the
    country filter is not blank and holds a keyword, a partner name
    that includes one of its keywords. *)
Definition bcg_selected (year : Z) (st : BCGState) (d : ProcessedData) : Prop :=
  年份 d = year
  /\ 同比增速 d <> None
  /\ (0 < 市场份额 d)%Qc
  /\ ((minShare st <= 市场份额 d * Qc_of_Z 100)%Qc
      /\ (市场份额 d * Qc_of_Z 100 <= maxShare st)%Qc)
  /\ (let kws :=
        List.filter (fun k : jsstring => match k with [] => false | _ => true end)
          (List.map trim
             (split_on (fun c => N.eqb c 44 || N.eqb c 65292)
                       (countryFilter st))) in
      trim (countryFilter st) <> [] -> kws <> [] ->
      exists k, In k kws /\ includes (贸易伙伴名称 d) k = true).

(** ** Steps 1 to 3 of [processData] over binary64 numbers

    The same code with the numbers of the engine: [+] is the addition
    of IEEE 754 binary64, rounded to nearest.  The records are those
    whose period is a string and whose export value is a number or is
    missing, which reach neither [String] of a number nor
    [parseFloat]. *)
Module Binary64.
Import PrimFloat.
Local Open Scope float_scope.

Module RawData.
Record t := {
  数据年月 : jsstring;
  贸易伙伴名称 : option jsstring;
  人民币 : option float
}.
End RawData.

Record AggregatedRecord := {
  年份 : Z;
  贸易伙伴名称 : jsstring;
  出口额 : float
}.

(** [x || d] on a number: [0], [-0] and [NaN] are falsy. *)
Definition num_or (x d : float) : float :=
  if (x =? 0) || is_nan x then d else x.

(** [rmb] of the cleaning step, for a number or a missing value. *)
Definition rmb_of (v : option float) : float :=
  match v with
  | None => 0
  | Some x => num_or x 0
  end.

(** [parseInt(yearStr.substring(0, 4), 10)] *)
Definition year_of (row : RawData.t) : option Z :=
  parseInt (substring0 4 (RawData.数据年月 row)).

(** [row.贸易伙伴名称 || '未知'] *)
Definition partner_of (row : RawData.t) : jsstring :=
  match RawData.贸易伙伴名称 row with
  | Some (c :: s) => c :: s
  | Some [] | None => 未知
  end.

Definition cleanRow (row : RawData.t) : option AggregatedRecord :=
  let rmb := rmb_of (RawData.人民币 row) in
  match year_of row with
  | Some year =>
      Some {| 年份 := year; 贸易伙伴名称 := partner_of row; 出口额 := rmb |}
  | None => None
  end.

Definition cleanedData (rawData : list RawData.t) : list AggregatedRecord :=
  omap cleanRow rawData.

Definition key_of (curr : AggregatedRecord) : jsstring :=
  Z_toString (年份 curr) ++ hyphen :: 贸易伙伴名称 curr.

(** [acc[key].出口额 += curr.出口额], on an entry created with [0]. *)
Definition aggregate_step (acc : list (jsstring * AggregatedRecord))
    (curr : AggregatedRecord) : list (jsstring * AggregatedRecord) :=
  let key := key_of curr in
  let entry :=
    match obj_get acc key with
    | Some e => e
    | None =>
        {| 年份 := 年份 curr; 贸易伙伴名称 := 贸易伙伴名称 curr; 出口额 := 0 |}
    end in
  obj_set acc key
    {| 年份 := 年份 entry; 贸易伙伴名称 := 贸易伙伴名称 entry;
       出口额 := 出口额 entry + 出口额 curr |}.

Definition aggregated (cleaned : list AggregatedRecord)
  : list (jsstring * AggregatedRecord) :=
  fold_left aggregate_step cleaned [].

Definition aggregatedArray (rawData : list RawData.t) : list AggregatedRecord :=
  Object_values (aggregated (cleanedData rawData)).

(** Step 3: [acc[curr.年份] = (acc[curr.年份] || 0) + curr.出口额]. *)
Definition globalTotal_step (acc : gmap Z float) (curr : AggregatedRecord)
  : gmap Z float :=
  <[ 年份 curr :=
       match acc !! 年份 curr with
       | Some x => num_or x 0
       | None => 0
       end + 出口额 curr ]> acc.

Definition globalTotal (rows : list AggregatedRecord) : gmap Z float :=
  fold_left globalTotal_step rows ∅.

(** The sum of numbers taken in the order of the array, from [0]. *)
Definition sum (xs : list float) : float := fold_left add xs 0.

(** Sum of the export values of the aggregated rows of year [y]. *)
Definition export_sum (y : Z) (rows : list AggregatedRecord) : float :=
  sum (List.map 出口额 (List.filter (fun r => Z.eqb (年份 r) y) rows)).

(** Sum of the coerced export values of the raw records of year [y]. *)
Definition raw_sum (y : Z) (rawData : list RawData.t) : float :=
  sum (List.map (fun row => rmb_of (RawData.人民币 row))
         (List.filter
            (fun row =>
               match year_of row with
               | Some year => Z.eqb year y
               | None => false
               end) rawData)).

Definition rawRecord (p : jsstring) (partner : jsstring) (v : float) : RawData.t :=
  {| RawData.数据年月 := p; RawData.贸易伙伴名称 := Some partner;
     RawData.人民币 := Some v |}.

(** One year in which A exports 0.1, B 0.2 and A again 0.4. *)
Definition regrouping : list RawData.t :=
  [ rawRecord (js "2023") (js "A") (1 / 10);
    rawRecord (js "2023") (js "B") (2 / 10);
    rawRecord (js "2023") (js "A") (4 / 10) ].
End Binary64.

(** * Properties *)

(** ** Numbers *)

Lemma Qc_eqb_true (x y : Qc) : Qc_eqb x y = true <-> x = y.
Proof. unfold Qc_eqb. destruct (Qc_eq_dec x y); split; congruence. Qed.

Lemma Qc_eqb_false (x y : Qc) : Qc_eqb x y = false <-> x <> y.
Proof. unfold Qc_eqb. destruct (Qc_eq_dec x y); split; congruence. Qed.

Lemma Qc_ltb_lt (x y : Qc) : Qc_ltb x y = true <-> (x < y)%Qc.
Proof.
  unfold Qc_ltb. rewrite Qclt_alt.
  destruct (x ?= y)%Qc; split; congruence.
Qed.

Lemma Qc_ltb_ge (x y : Qc) : Qc_ltb x y = false <-> (y <= x)%Qc.
Proof.
  rewrite <- not_true_iff_false, Qc_ltb_lt.
  split; [apply Qcnot_lt_le | apply Qcle_not_lt].
Qed.

Lemma Qc_leb_le (x y : Qc) : Qc_leb x y = true <-> (x <= y)%Qc.
Proof.
  unfold Qc_leb. rewrite Qcle_alt.
  destruct (x ?= y)%Qc; split; congruence.
Qed.

Lemma num_or_Some_0 (x : Qc) : num_or (Some x) 0 = x.
Proof.
  unfold num_or. destruct (Qc_eqb x 0) eqn:E; [|reflexivity].
  apply Qc_eqb_true in E. congruence.
Qed.

Lemma num_or_1 (v : option Qc) :
  num_or v 1 = if Qc_eqb (num_or v 0) 0 then 1%Qc else num_or v 0.
Proof.
  destruct v as [x|]; simpl; [|reflexivity].
  destruct (Qc_eqb x 0) eqn:E; simpl; [reflexivity|]. now rewrite E.
Qed.

Lemma num_or_1_nonzero (v : option Qc) : num_or v 1 <> 0%Qc.
Proof.
  destruct v as [x|]; simpl; [|discriminate].
  destruct (Qc_eqb x 0) eqn:E; [discriminate|]. now apply Qc_eqb_false.
Qed.

Lemma Qc_of_Z_pos (z : Z) : (0 < Qc_of_Z z)%Qc <-> 0 < z.
Proof.
  unfold Qc_of_Z, Qclt.
  change (this (Q2Qc (inject_Z z))) with (Qred (inject_Z z)).
  rewrite Qred_correct. change (this 0%Qc) with (0 # 1)%Q.
  unfold Qlt. simpl. lia.
Qed.

Lemma Qcabs_nonzero (x : Qc) : x <> 0%Qc -> Qcabs x <> 0%Qc.
Proof.
  intros Hx. unfold Qcabs. destruct (Qc_ltb x 0); [|exact Hx].
  intros E. apply Hx. rewrite <- (Qcopp_involutive x), E. reflexivity.
Qed.

(** ** Sums *)

Section Sums.
Context {A : Type} (p : A -> bool) (f : A -> Qc).

Lemma sum_where_app (l1 l2 : list A) :
  sum_where p f (l1 ++ l2) = (sum_where p f l1 + sum_where p f l2)%Qc.
Proof.
  induction l1 as [|x l1 IH]; simpl.
  - now rewrite Qcplus_0_l.
  - destruct (p x); rewrite IH; [ring | reflexivity].
Qed.

Lemma sum_where_perm (l1 l2 : list A) :
  Permutation l1 l2 -> sum_where p f l1 = sum_where p f l2.
Proof.
  induction 1 as [|x l1 l2 _ IH|x y l|l1 l2 l3 _ IH1 _ IH2]; simpl.
  - reflexivity.
  - now rewrite IH.
  - destruct (p x), (p y); ring.
  - congruence.
Qed.

Lemma sum_where_div (d : Qc) (l : list A) :
  sum_where p (fun x => f x / d)%Qc l = (sum_where p f l / d)%Qc.
Proof.
  induction l as [|x l IH]; simpl.
  - unfold Qcdiv. ring.
  - destruct (p x); rewrite IH; unfold Qcdiv; ring.
Qed.

Lemma sum_where_ext_in (g : A -> Qc) (l : list A) :
  (forall x, In x l -> p x = true -> f x = g x) ->
  sum_where p f l = sum_where p g l.
Proof.
  induction l as [|x l IH]; simpl; intros Hfg; [reflexivity|].
  rewrite IH by auto. destruct (p x) eqn:E; [|reflexivity].
  now rewrite Hfg by auto.
Qed.
End Sums.

Lemma sum_where_map {A B : Type} (h : A -> B) (p : B -> bool) (f : B -> Qc)
    (l : list A) :
  sum_where p f (List.map h l) = sum_where (fun x => p (h x)) (fun x => f (h x)) l.
Proof. induction l as [|x l IH]; simpl; [reflexivity|]. now rewrite IH. Qed.

Lemma sum_where_nonneg {A : Type} (p : A -> bool) (f : A -> Qc) (l : list A) :
  (forall x, In x l -> p x = true -> (0 <= f x)%Qc) ->
  (0 <= sum_where p f l)%Qc.
Proof.
  induction l as [|b l IH]; simpl; intros Hpos.
  - apply Qcle_refl.
  - assert (Hl : (0 <= sum_where p f l)%Qc) by (apply IH; intros x Hx; apply (Hpos x); now right).
    destruct (p b) eqn:E; [|exact Hl].
    replace 0%Qc with (0 + 0)%Qc by ring.
    apply Qcplus_le_compat; [|exact Hl].
    apply (Hpos b); [now left | exact E].
Qed.

Lemma sum_where_nonneg_zero {A : Type} (p : A -> bool) (f : A -> Qc) (l : list A) :
  (forall x, In x l -> p x = true -> (0 <= f x)%Qc) ->
  sum_where p f l = 0%Qc ->
  forall x, In x l -> p x = true -> f x = 0%Qc.
Proof.
  induction l as [|a l IH]; simpl; intros Hpos Hsum x Hx Hp; [contradiction|].
  assert (Hpos' : forall x, In x l -> p x = true -> (0 <= f x)%Qc)
    by (intros z Hz; apply (Hpos z); now right).
  assert (Hrest : (0 <= sum_where p f l)%Qc) by now apply sum_where_nonneg.
  destruct (p a) eqn:Ea.
  - assert (Ha : (0 <= f a)%Qc) by (apply (Hpos a); [now left | exact Ea]).
    assert (Hfa : f a = 0%Qc /\ sum_where p f l = 0%Qc).
    { split; apply Qcle_antisym; try assumption.
      - rewrite <- Hsum. rewrite <- (Qcplus_0_r (f a)) at 1.
        apply Qcplus_le_compat; [apply Qcle_refl | exact Hrest].
      - rewrite <- Hsum. rewrite <- (Qcplus_0_l (sum_where p f l)) at 1.
        apply Qcplus_le_compat; [exact Ha | apply Qcle_refl]. }
    destruct Hfa as [Hfa Hl]. destruct Hx as [<-|Hx]; [exact Hfa|].
    now apply IH.
  - destruct Hx as [<-|Hx]; [congruence|]. now apply IH.
Qed.

(** ** The aggregation key determines year and partner *)

Lemma uint_digits_no_hyphen (u : Decimal.uint) : ~ In hyphen (uint_digits u).
Proof.
  induction u; simpl; intros Hin;
    try (destruct Hin as [Hin|Hin]; [discriminate Hin | now apply IHu]);
    contradiction.
Qed.

Lemma uint_digits_inj (u v : Decimal.uint) :
  uint_digits u = uint_digits v -> u = v.
Proof.
  revert v. induction u; intros v; destruct v; simpl; intros E;
    try discriminate E; try reflexivity;
    injection E as E; f_equal; now apply IHu.
Qed.

Lemma uint_digits_head (u : Decimal.uint) (s : jsstring) :
  u <> Decimal.Nil -> uint_digits u <> hyphen :: s.
Proof. destruct u; simpl; intros Hu E; try discriminate E. Qed.

(** A text is cut at its first hyphen in one way only. *)
Lemma cut_at_hyphen (l1 l2 r1 r2 : jsstring) :
  ~ In hyphen l1 -> ~ In hyphen l2 ->
  l1 ++ hyphen :: r1 = l2 ++ hyphen :: r2 -> l1 = l2 /\ r1 = r2.
Proof.
  revert l2. induction l1 as [|a l1 IH]; intros [|b l2] H1 H2 E; simpl in *.
  - injection E as E. now split.
  - injection E as E1 E2. exfalso. apply H2. now left.
  - injection E as E1 E2. exfalso. apply H1. now left.
  - injection E as E1 E2. subst b.
    destruct (IH l2) as [-> ->]; auto.
Qed.

Lemma to_int_nonnil (n : Z) (u : Decimal.uint) :
  Z.to_int n = Decimal.Pos u \/ Z.to_int n = Decimal.Neg u -> u <> Decimal.Nil.
Proof.
  destruct n as [|p|p]; simpl; intros [E|E]; inversion E; subst;
    try discriminate; apply Unsigned.to_uint_nonnil.
Qed.

Lemma to_int_inj (a b : Z) : Z.to_int a = Z.to_int b -> a = b.
Proof. intros E. rewrite <- (DecimalZ.of_to a), <- (DecimalZ.of_to b). now rewrite E. Qed.

Lemma key_inj (a b : Z) (s t : jsstring) :
  Z_toString a ++ hyphen :: s = Z_toString b ++ hyphen :: t -> a = b /\ s = t.
Proof.
  unfold Z_toString.
  destruct (Z.to_int a) as [u|u] eqn:Ea, (Z.to_int b) as [v|v] eqn:Eb;
    simpl; intros E.
  - apply cut_at_hyphen in E; try apply uint_digits_no_hyphen.
    destruct E as [E ->]. apply uint_digits_inj in E. subst v.
    split; [apply to_int_inj; congruence | reflexivity].
  - exfalso. assert (Hu : u <> Decimal.Nil) by (apply (to_int_nonnil a); auto).
    destruct u; simpl in E; try discriminate E. now apply Hu.
  - exfalso. assert (Hv : v <> Decimal.Nil) by (apply (to_int_nonnil b); auto).
    destruct v; simpl in E; try discriminate E. now apply Hv.
  - injection E as E.
    apply cut_at_hyphen in E; try apply uint_digits_no_hyphen.
    destruct E as [E ->]. apply uint_digits_inj in E. subst v.
    split; [apply to_int_inj; congruence | reflexivity].
Qed.

Lemma key_of_inj (r1 r2 : AggregatedRecord) :
  key_of r1 = key_of r2 ->
  年份 r1 = 年份 r2 /\ 贸易伙伴名称 r1 = 贸易伙伴名称 r2.
Proof. apply key_inj. Qed.

(** ** The sort *)

Section SortFacts.
Context {A : Type} (compareFn : A -> A -> Qc).

Lemma sort_insert_perm (x : A) (l : list A) :
  Permutation (sort_insert compareFn x l) (x :: l).
Proof.
  induction l as [|y l IH]; simpl; [reflexivity|].
  destruct (Qc_ltb 0 (compareFn x y)); [|reflexivity].
  rewrite IH. apply perm_swap.
Qed.

Lemma sort_perm (l : list A) : Permutation (sort compareFn l) l.
Proof.
  induction l as [|x l IH]; simpl; [reflexivity|].
  rewrite sort_insert_perm. now constructor.
Qed.

Lemma sort_In (l : list A) (x : A) : In x (sort compareFn l) <-> In x l.
Proof.
  split; apply Permutation_in; [|symmetry]; apply sort_perm.
Qed.

(** The comparator is consistent: of two elements one does not come
    after the other, and "does not come after" is transitive. *)
Hypothesis compare_total : forall a b,
  precedes compareFn a b \/ precedes compareFn b a.
Hypothesis compare_trans : forall a b c,
  precedes compareFn a b -> precedes compareFn b c -> precedes compareFn a c.

Lemma sort_insert_sorted (x : A) (l : list A) :
  StronglySorted (precedes compareFn) l ->
  StronglySorted (precedes compareFn) (sort_insert compareFn x l).
Proof.
  induction 1 as [|y l Hl IH Hy]; simpl.
  - repeat constructor.
  - destruct (Qc_ltb 0 (compareFn x y)) eqn:E.
    + constructor; [exact IH|].
      rewrite List.Forall_forall. intros z Hz.
      apply (Permutation_in _ (sort_insert_perm x l)) in Hz.
      destruct Hz as [<-|Hz].
      * destruct (compare_total y x) as [Hyx|Hxy]; [exact Hyx|].
        unfold precedes in Hxy. congruence.
      * rewrite List.Forall_forall in Hy. now apply Hy.
    + constructor; [now constructor|].
      constructor; [exact E|].
      rewrite List.Forall_forall in Hy |- *. intros z Hz.
      apply (compare_trans x y z); [exact E | now apply Hy].
Qed.

Lemma sort_sorted (l : list A) :
  StronglySorted (precedes compareFn) (sort compareFn l).
Proof.
  induction l as [|x l IH]; simpl; [constructor|].
  now apply sort_insert_sorted.
Qed.
End SortFacts.

Lemma StronglySorted_weaken {A : Type} (R S : A -> A -> Prop) (l : list A) :
  (forall a b, R a b -> S a b) -> StronglySorted R l -> StronglySorted S l.
Proof.
  intros HRS. induction 1 as [|x l Hl IH Hx]; constructor; [exact IH|].
  rewrite List.Forall_forall in Hx |- *. auto.
Qed.

Lemma StronglySorted_app_cross {A : Type} (R : A -> A -> Prop) (l1 l2 : list A) :
  StronglySorted R (l1 ++ l2) ->
  forall a b, In a l1 -> In b l2 -> R a b.
Proof.
  induction l1 as [|x l1 IH]; simpl; intros Hs a b Ha Hb; [contradiction|].
  apply StronglySorted_inv in Hs. destruct Hs as [Hs Hx].
  destruct Ha as [<-|Ha]; [|now apply IH].
  rewrite List.Forall_forall in Hx. apply Hx. apply in_or_app. now right.
Qed.

Lemma StronglySorted_app_l {A : Type} (R : A -> A -> Prop) (l1 l2 : list A) :
  StronglySorted R (l1 ++ l2) -> StronglySorted R l1.
Proof.
  induction l1 as [|x l1 IH]; simpl; intros Hs; [constructor|].
  apply StronglySorted_inv in Hs. destruct Hs as [Hs Hx].
  constructor; [now apply IH|].
  rewrite List.Forall_forall in Hx |- *. intros z Hz. apply Hx. apply in_or_app. now left.
Qed.

(** ** Plain objects *)

Section PlainObjectFacts.
Context {V : Type}.
Implicit Types (o : list (jsstring * V)) (k : jsstring) (v e : V).

Lemma jsstring_eqb_eq (s t : jsstring) : jsstring_eqb s t = true <-> s = t.
Proof. unfold jsstring_eqb. destruct (jsstring_eq_dec s t); split; congruence. Qed.

Lemma obj_get_In o k e : obj_get o k = Some e -> In (k, e) o.
Proof.
  induction o as [|[k' v'] o IH]; simpl; [discriminate|].
  destruct (jsstring_eqb k' k) eqn:E.
  - apply jsstring_eqb_eq in E. intros [= ->]. subst. now left.
  - intros Hg. right. now apply IH.
Qed.

Lemma obj_get_None o k : obj_get o k = None -> ~ In k (List.map fst o).
Proof.
  induction o as [|[k' v'] o IH]; simpl; [tauto|].
  destruct (jsstring_eqb k' k) eqn:E; [discriminate|].
  intros Hg [Hk|Hk]; [|now apply IH].
  apply jsstring_eqb_eq in Hk. congruence.
Qed.

Lemma obj_set_new o k v : obj_get o k = None -> obj_set o k v = o ++ [(k, v)].
Proof.
  induction o as [|[k' v'] o IH]; simpl; [reflexivity|].
  destruct (jsstring_eqb k' k); [discriminate|].
  intros Hg. now rewrite IH.
Qed.

Lemma obj_set_keys o k v e :
  obj_get o k = Some e -> List.map fst (obj_set o k v) = List.map fst o.
Proof.
  induction o as [|[k' v'] o IH]; simpl; [discriminate|].
  destruct (jsstring_eqb k' k) eqn:E; simpl.
  - apply jsstring_eqb_eq in E. now subst.
  - intros Hg. now rewrite IH.
Qed.

Lemma obj_get_set_same o k v : obj_get (obj_set o k v) k = Some v.
Proof.
  assert (Hk : jsstring_eqb k k = true) by now apply jsstring_eqb_eq.
  induction o as [|[k' v'] o IH]; simpl; [now rewrite Hk|].
  destruct (jsstring_eqb k' k) eqn:E; simpl; [now rewrite Hk|].
  now rewrite E.
Qed.

Lemma obj_get_set_other o k k' v :
  k <> k' -> obj_get (obj_set o k v) k' = obj_get o k'.
Proof.
  intros Hne.
  assert (Hk : jsstring_eqb k k' = false).
  { apply not_true_iff_false. now rewrite jsstring_eqb_eq. }
  induction o as [|[k0 v0] o IH]; simpl; [now rewrite Hk|].
  destruct (jsstring_eqb k0 k) eqn:E; simpl.
  - apply jsstring_eqb_eq in E. subst k0. now rewrite Hk.
  - now rewrite IH.
Qed.

Lemma obj_get_values o k e : obj_get o k = Some e -> In e (Object_values o).
Proof.
  intros Hg. apply obj_get_In in Hg. unfold Object_values.
  apply in_map_iff. now exists (k, e).
Qed.

(** Replacing the value of an existing property moves a sum by the
    difference of the two values. *)
Lemma sum_where_obj_set (p : V -> bool) (f : V -> Qc) o k v e :
  obj_get o k = Some e -> p v = p e ->
  (sum_where p f (Object_values (obj_set o k v))
     + (if p e then f e else 0))%Qc
  = (sum_where p f (Object_values o) + (if p e then f v else 0))%Qc.
Proof.
  intros Hg Hp. induction o as [|[k' v'] o IH]; simpl in *; [discriminate|].
  destruct (jsstring_eqb k' k) eqn:E; simpl.
  - injection Hg as ->. rewrite Hp. destruct (p e); ring.
  - specialize (IH Hg). destruct (p v'); [|exact IH].
    rewrite <- !Qcplus_assoc, IH. reflexivity.
Qed.
End PlainObjectFacts.

(** ** Step 2: aggregation *)

Lemma keyed_get (acc : list (jsstring * AggregatedRecord)) k e :
  keyed acc -> obj_get acc k = Some e -> k = key_of e.
Proof.
  intros Hk Hg. apply obj_get_In in Hg.
  unfold keyed in Hk. rewrite List.Forall_forall in Hk.
  exact (Hk _ Hg).
Qed.

Lemma keyed_set (acc : list (jsstring * AggregatedRecord)) k v :
  keyed acc -> k = key_of v -> keyed (obj_set acc k v).
Proof.
  unfold keyed. intros Hacc Hk.
  induction acc as [|[k' v'] acc IH]; simpl.
  - repeat constructor. exact Hk.
  - apply Forall_inv in Hacc as Hhd. apply Forall_inv_tail in Hacc.
    destruct (jsstring_eqb k' k); constructor; auto.
Qed.

(** What [aggregate_step] stores: the entry under the key of [curr],
    with the year and partner of [curr]. *)
Lemma aggregate_step_eq (acc : list (jsstring * AggregatedRecord)) curr :
  keyed acc ->
  exists v, aggregate_step acc curr = obj_set acc (key_of curr) v
    /\ 年份 v = 年份 curr /\ 贸易伙伴名称 v = 贸易伙伴名称 curr
    /\ key_of v = key_of curr
    /\ 出口额 v =
       (match obj_get acc (key_of curr) with
        | Some e => 出口额 e | None => 0 end + 出口额 curr)%Qc.
Proof.
  intros Hk. unfold aggregate_step.
  destruct (obj_get acc (key_of curr)) as [e|] eqn:Hg.
  - pose proof (keyed_get _ _ _ Hk Hg) as Hke.
    destruct (key_of_inj _ _ Hke) as [Hy Hn].
    eexists. split; [reflexivity|]. simpl.
    repeat split; try congruence. unfold key_of in *. simpl. congruence.
  - eexists. split; [reflexivity|]. simpl. repeat split; reflexivity.
Qed.

Lemma aggregate_step_keyed (acc : list (jsstring * AggregatedRecord)) curr :
  keyed acc -> keyed (aggregate_step acc curr).
Proof.
  intros Hk. destruct (aggregate_step_eq acc curr Hk) as (v & -> & _ & _ & Hkv & _).
  now apply keyed_set.
Qed.

Lemma aggregate_step_NoDup (acc : list (jsstring * AggregatedRecord)) curr :
  NoDup (List.map fst acc) -> NoDup (List.map fst (aggregate_step acc curr)).
Proof.
  intros Hnd. unfold aggregate_step.
  destruct (obj_get acc (key_of curr)) as [e|] eqn:Hg.
  - now rewrite (obj_set_keys _ _ _ _ Hg).
  - rewrite (obj_set_new _ _ _ Hg), List.map_app. simpl.
    apply NoDup_app; split; [exact Hnd|]. split.
    + intros x Hx Hx'. apply list_elem_of_In in Hx.
      apply list_elem_of_In in Hx'. destruct Hx' as [<-|[]].
      now apply (obj_get_None _ _ Hg).
    + repeat constructor. intros Hin. now apply list_elem_of_In in Hin.
Qed.

Lemma aggregate_step_sum (y : Z) (acc : list (jsstring * AggregatedRecord)) curr :
  keyed acc ->
  export_sum y (Object_values (aggregate_step acc curr))
  = (export_sum y (Object_values acc)
     + (if in_year y curr then 出口额 curr else 0))%Qc.
Proof.
  intros Hk. destruct (aggregate_step_eq acc curr Hk) as (v & -> & Hy & _ & _ & Hv).
  unfold export_sum.
  destruct (obj_get acc (key_of curr)) as [e|] eqn:Hg.
  - pose proof (keyed_get _ _ _ Hk Hg) as Hke.
    destruct (key_of_inj _ _ Hke) as [Hye _].
    assert (Hp : in_year y v = in_year y e) by (unfold in_year; congruence).
    pose proof (sum_where_obj_set (in_year y) 出口额 acc _ v e Hg Hp) as Hs.
    assert (Hpc : in_year y curr = in_year y e) by (unfold in_year; congruence).
    rewrite Hpc. destruct (in_year y e).
    + rewrite Hv in Hs.
      match goal with |- ?S' = _ =>
        replace S' with (S' + 出口额 e - 出口额 e)%Qc by ring end.
      rewrite Hs. ring.
    + rewrite !Qcplus_0_r in Hs. rewrite Hs. ring.
  - rewrite (obj_set_new _ _ _ Hg). unfold Object_values.
    rewrite List.map_app, sum_where_app. simpl.
    replace (in_year y v) with (in_year y curr) by (unfold in_year; congruence).
    destruct (in_year y curr); rewrite ?Hv; ring.
Qed.

Lemma export_sum_cons (y : Z) (c : AggregatedRecord) rows :
  export_sum y (c :: rows)
  = ((if in_year y c then 出口额 c else 0) + export_sum y rows)%Qc.
Proof. unfold export_sum. simpl. destruct (in_year y c); ring. Qed.

Lemma fold_aggregate_keyed cleaned (acc : list (jsstring * AggregatedRecord)) :
  keyed acc -> keyed (fold_left aggregate_step cleaned acc).
Proof.
  revert acc. induction cleaned as [|c cleaned IH]; simpl; intros acc Hk; auto.
  apply IH. now apply aggregate_step_keyed.
Qed.

Lemma fold_aggregate_NoDup cleaned (acc : list (jsstring * AggregatedRecord)) :
  NoDup (List.map fst acc) ->
  NoDup (List.map fst (fold_left aggregate_step cleaned acc)).
Proof.
  revert acc. induction cleaned as [|c cleaned IH]; simpl; intros acc Hk; auto.
  apply IH. now apply aggregate_step_NoDup.
Qed.

Lemma fold_aggregate_sum (y : Z) cleaned (acc : list (jsstring * AggregatedRecord)) :
  keyed acc ->
  export_sum y (Object_values (fold_left aggregate_step cleaned acc))
  = (export_sum y (Object_values acc) + export_sum y cleaned)%Qc.
Proof.
  revert acc. induction cleaned as [|c cleaned IH]; simpl; intros acc Hk.
  - unfold export_sum. simpl. ring.
  - rewrite IH by now apply aggregate_step_keyed.
    rewrite aggregate_step_sum by exact Hk.
    destruct (in_year y c); ring.
Qed.

Lemma aggregated_keyed cleaned : keyed (aggregated cleaned).
Proof. apply fold_aggregate_keyed. constructor. Qed.

Lemma aggregated_NoDup cleaned :
  NoDup (List.map key_of (Object_values (aggregated cleaned))).
Proof.
  assert (Hnd : NoDup (List.map fst (fold_left aggregate_step cleaned [])))
    by (apply fold_aggregate_NoDup; simpl; constructor).
  pose proof (aggregated_keyed cleaned) as Hk.
  unfold aggregated, Object_values in *.
  rewrite List.map_map.
  erewrite List.map_ext_in; [exact Hnd|].
  intros kr Hin. unfold keyed in Hk. rewrite List.Forall_forall in Hk.
  symmetry. now apply Hk.
Qed.

Lemma aggregated_sum (y : Z) cleaned :
  export_sum y (Object_values (aggregated cleaned)) = export_sum y cleaned.
Proof.
  unfold aggregated. rewrite fold_aggregate_sum by constructor.
  unfold export_sum. simpl. ring.
Qed.

(** Rows with the same year and partner are the same row. *)
Lemma aggregated_unique cleaned (r1 r2 : AggregatedRecord) :
  In r1 (Object_values (aggregated cleaned)) ->
  In r2 (Object_values (aggregated cleaned)) ->
  年份 r1 = 年份 r2 -> 贸易伙伴名称 r1 = 贸易伙伴名称 r2 -> r1 = r2.
Proof.
  intros H1 H2 Hy Hn.
  assert (Hkey : key_of r1 = key_of r2) by (unfold key_of; congruence).
  pose proof (aggregated_NoDup cleaned) as Hnd.
  revert H1 H2 Hnd. generalize (Object_values (aggregated cleaned)).
  intros l. induction l as [|a l IH]; simpl; [tauto|].
  intros H1 H2 Hnd. apply NoDup_cons in Hnd. destruct Hnd as [Ha Hnd].
  assert (Hfresh : forall r, In r l -> key_of r <> key_of a).
  { intros r Hr E. apply Ha. apply list_elem_of_In. rewrite <- E.
    now apply in_map. }
  destruct H1 as [<-|H1], H2 as [<-|H2]; auto.
  - exfalso. now apply (Hfresh r2).
  - exfalso. now apply (Hfresh r1).
Qed.

(** A property that exists is never removed, and keeps its year and
    partner. *)
Lemma aggregate_step_keeps (acc : list (jsstring * AggregatedRecord)) curr k e :
  keyed acc -> obj_get acc k = Some e ->
  exists e', obj_get (aggregate_step acc curr) k = Some e'
    /\ 年份 e' = 年份 e /\ 贸易伙伴名称 e' = 贸易伙伴名称 e.
Proof.
  intros Hk Hg.
  destruct (aggregate_step_eq acc curr Hk) as (v & -> & Hy & Hn & Hkv & _).
  destruct (jsstring_eq_dec (key_of curr) k) as [<-|Hne].
  - exists v. rewrite obj_get_set_same. split; [reflexivity|].
    pose proof (keyed_get _ _ _ Hk Hg) as Hke.
    destruct (key_of_inj _ _ Hke) as [Hye Hne]. split; congruence.
  - exists e. rewrite obj_get_set_other by exact Hne. auto.
Qed.

Lemma fold_aggregate_keeps cleaned (acc : list (jsstring * AggregatedRecord)) k e :
  keyed acc -> obj_get acc k = Some e ->
  exists e', obj_get (fold_left aggregate_step cleaned acc) k = Some e'
    /\ 年份 e' = 年份 e /\ 贸易伙伴名称 e' = 贸易伙伴名称 e.
Proof.
  revert acc e. induction cleaned as [|c cleaned IH]; simpl; intros acc e Hk Hg.
  - now exists e.
  - destruct (aggregate_step_keeps acc c k e Hk Hg) as (e1 & Hg1 & Hy1 & Hn1).
    destruct (IH _ e1 (aggregate_step_keyed _ c Hk) Hg1) as (e2 & Hg2 & Hy2 & Hn2).
    exists e2. repeat split; congruence.
Qed.

(** Every cleaned row has its aggregated row. *)
Lemma aggregated_covers cleaned (c : AggregatedRecord) :
  In c cleaned ->
  exists r, In r (Object_values (aggregated cleaned))
    /\ 年份 r = 年份 c /\ 贸易伙伴名称 r = 贸易伙伴名称 c.
Proof.
  unfold aggregated.
  assert (Hgen : forall acc, keyed acc -> In c cleaned ->
    exists r, In r (Object_values (fold_left aggregate_step cleaned acc))
      /\ 年份 r = 年份 c /\ 贸易伙伴名称 r = 贸易伙伴名称 c).
  { induction cleaned as [|a cleaned IH]; simpl; intros acc Hk Hin; [contradiction|].
    destruct Hin as [->|Hin].
    - destruct (aggregate_step_eq acc c Hk) as (v & Hv & Hy & Hn & _).
      assert (Hg : obj_get (aggregate_step acc c) (key_of c) = Some v)
        by (rewrite Hv; apply obj_get_set_same).
      destruct (fold_aggregate_keeps cleaned _ _ _
                  (aggregate_step_keyed _ c Hk) Hg) as (e & Hge & Hye & Hne).
      exists e. split; [now apply (obj_get_values _ _ _ Hge)|].
      split; congruence.
    - apply IH; [now apply aggregate_step_keyed | exact Hin]. }
  intros Hin. apply Hgen; [constructor | exact Hin].
Qed.

(** ** Step 3: the total of a year *)

Lemma globalTotal_step_lookup (acc : gmap Z Qc) (c : AggregatedRecord) (y : Z) :
  num_or (globalTotal_step acc c !! y) 0
  = (num_or (acc !! y) 0 + (if in_year y c then 出口额 c else 0))%Qc.
Proof.
  unfold globalTotal_step, in_year.
  destruct (Z.eqb_spec (年份 c) y) as [->|Hne].
  - rewrite lookup_insert_eq. now rewrite num_or_Some_0.
  - rewrite lookup_insert_ne by exact Hne. ring.
Qed.

Lemma fold_globalTotal_lookup rows (acc : gmap Z Qc) (y : Z) :
  num_or (fold_left globalTotal_step rows acc !! y) 0
  = (num_or (acc !! y) 0 + export_sum y rows)%Qc.
Proof.
  revert acc. induction rows as [|c rows IH]; intros acc.
  - unfold export_sum. simpl. ring.
  - simpl fold_left. rewrite IH, globalTotal_step_lookup, export_sum_cons. ring.
Qed.

Lemma globalTotal_lookup rows (y : Z) :
  num_or (globalTotal rows !! y) 0 = export_sum y rows.
Proof.
  unfold globalTotal. rewrite fold_globalTotal_lookup, lookup_empty. simpl. ring.
Qed.

Lemma globalTotal_Some rows (y : Z) (t : Qc) :
  globalTotal rows !! y = Some t -> t = export_sum y rows.
Proof.
  intros E. rewrite <- globalTotal_lookup, E. symmetry. apply num_or_Some_0.
Qed.

Lemma fold_globalTotal_is_Some rows (acc : gmap Z Qc) (y : Z) :
  is_Some (acc !! y) \/ (exists r, In r rows /\ 年份 r = y) ->
  is_Some (fold_left globalTotal_step rows acc !! y).
Proof.
  revert acc. induction rows as [|c rows IH]; simpl; intros acc Hy.
  - destruct Hy as [Hy|(r & [] & _)]. exact Hy.
  - apply IH. unfold globalTotal_step.
    destruct (Z.eq_dec (年份 c) y) as [->|Hne].
    + left. rewrite lookup_insert_eq. eauto.
    + rewrite lookup_insert_ne by exact Hne.
      destruct Hy as [Hy|(r & [->|Hr] & Hry)]; [now left | contradiction | right; eauto].
Qed.

Lemma globalTotal_is_Some rows (r : AggregatedRecord) :
  In r rows -> is_Some (globalTotal rows !! 年份 r).
Proof. intros Hr. apply fold_globalTotal_is_Some. right. eauto. Qed.

(** ** Steps 4 and 5: shares and the row of the year before *)

Lemma in_withMarketShare rows (q : ShareRecord) :
  In q (withMarketShare rows) <->
  In (share_row q) rows /\
  市场份额 q = (出口额 q / num_or (globalTotal rows !! 年份 q) 1)%Qc.
Proof.
  unfold withMarketShare. rewrite in_map_iff. split.
  - intros (row & <- & Hrow). simpl. auto.
  - intros [Hrow Hs]. exists (share_row q). split; [|exact Hrow].
    destruct q as [row s]. simpl in *. now subst s.
Qed.

Lemma withMarketShare_of_row rows (row : AggregatedRecord) :
  In row rows -> exists q, In q (withMarketShare rows) /\ share_row q = row.
Proof.
  intros Hrow. eexists. split.
  - unfold withMarketShare. apply in_map_iff. eexists. split; [reflexivity | exact Hrow].
  - reflexivity.
Qed.

Section PreviousYear.
Variable cleaned : list AggregatedRecord.

Abbreviation rows := (Object_values (aggregated cleaned)).
Abbreviation shares := (withMarketShare (Object_values (aggregated cleaned))).

Lemma prevYearRow_Some (row q : ShareRecord) :
  prevYearRow shares row = Some q ->
  In (share_row q) rows /\ 年份 q = 年份 row - 1
  /\ 贸易伙伴名称 q = 贸易伙伴名称 row.
Proof.
  unfold prevYearRow. intros Hf. apply find_some in Hf.
  destruct Hf as [Hq Hp]. apply andb_true_iff in Hp. destruct Hp as [Hy Hn].
  apply Z.eqb_eq in Hy. apply jsstring_eqb_eq in Hn.
  apply in_withMarketShare in Hq. tauto.
Qed.

Lemma prevExport_found (row : ShareRecord) (p : AggregatedRecord) :
  In p rows -> 年份 p = 年份 row - 1 -> 贸易伙伴名称 p = 贸易伙伴名称 row ->
  prevExport_of shares row = 出口额 p.
Proof.
  intros Hp Hy Hn. unfold prevExport_of.
  destruct (prevYearRow shares row) as [q|] eqn:Hf.
  - apply prevYearRow_Some in Hf. destruct Hf as (Hq & Hqy & Hqn).
    f_equal. apply (aggregated_unique cleaned); auto; congruence.
  - exfalso. unfold prevYearRow in Hf.
    destruct (withMarketShare_of_row rows p Hp) as (q & Hq & Hqp).
    pose proof (find_none _ _ Hf q Hq) as Hfalse. simpl in Hfalse.
    rewrite Hqp in Hfalse.
    apply andb_false_iff in Hfalse. destruct Hfalse as [Hfalse|Hfalse].
    + apply Z.eqb_neq in Hfalse. contradiction.
    + apply not_true_iff_false in Hfalse. apply Hfalse. now apply jsstring_eqb_eq.
Qed.

Lemma prevExport_nonzero (row : ShareRecord) :
  prevExport_of shares row <> 0%Qc ->
  exists p, In p rows /\ 年份 p = 年份 row - 1
    /\ 贸易伙伴名称 p = 贸易伙伴名称 row
    /\ 出口额 p = prevExport_of shares row.
Proof.
  unfold prevExport_of.
  destruct (prevYearRow shares row) as [q|] eqn:Hf; [|congruence].
  intros _. apply prevYearRow_Some in Hf. exists (share_row q). tauto.
Qed.
End PreviousYear.

Lemma withGrowth_growth_None shares row :
  同比增速 (withGrowth shares row) = None <-> 去年出口额 (withGrowth shares row) = 0%Qc.
Proof.
  unfold withGrowth. simpl.
  destruct (Qc_eqb (prevExport_of shares row) 0) eqn:E.
  - apply Qc_eqb_true in E. tauto.
  - apply Qc_eqb_false in E. split; [discriminate | contradiction].
Qed.

Lemma withGrowth_growth_Some shares row g :
  同比增速 (withGrowth shares row) = Some g ->
  去年出口额 (withGrowth shares row) <> 0%Qc /\
  g = ((出口额 row - 去年出口额 (withGrowth shares row))
       / Qcabs (去年出口额 (withGrowth shares row)))%Qc.
Proof.
  unfold withGrowth. simpl.
  destruct (Qc_eqb (prevExport_of shares row) 0) eqn:E; [discriminate|].
  apply Qc_eqb_false in E. intros [= <-]. auto.
Qed.

(** ** Step 6: the comparator of the final sort is consistent *)

Lemma Qc_sub_nonpos (x y : Qc) : (x - y <= 0)%Qc <-> (x <= y)%Qc.
Proof.
  split; intros Hle.
  - apply (proj2 (Qcle_minus_iff x y)).
    apply (proj1 (Qcle_minus_iff (x - y) 0)) in Hle.
    replace (y + - x)%Qc with (0 + - (x - y))%Qc by ring. exact Hle.
  - apply (proj2 (Qcle_minus_iff (x - y) 0)).
    apply (proj1 (Qcle_minus_iff x y)) in Hle.
    replace (0 + - (x - y))%Qc with (y + - x)%Qc by ring. exact Hle.
Qed.

Lemma precedes_byYearThenExport (a b : ProcessedData) :
  precedes byYearThenExport a b <-> year_asc_export_desc a b.
Proof.
  unfold precedes, byYearThenExport, year_asc_export_desc.
  rewrite Qc_ltb_ge.
  destruct (Z.eqb_spec (年份 a) (年份 b)) as [E|N]; simpl.
  - rewrite Qc_sub_nonpos. split.
    + intros Hle. right. now split.
    + intros [Hlt|[_ Hle]]; [lia | exact Hle].
  - split.
    + intros Hle. left. apply Qcle_not_lt in Hle. rewrite Qc_of_Z_pos in Hle. lia.
    + intros [Hlt|[E _]]; [|contradiction].
      apply Qcnot_lt_le. rewrite Qc_of_Z_pos. lia.
Qed.

Lemma year_asc_export_desc_total (a b : ProcessedData) :
  year_asc_export_desc a b \/ year_asc_export_desc b a.
Proof.
  unfold year_asc_export_desc.
  destruct (Z.lt_trichotomy (年份 a) (年份 b)) as [Hlt|[E|Hgt]]; auto.
  destruct (Qclt_le_dec (出口额 a) (出口额 b)) as [Hlt|Hle].
  - right. right. split; [auto|]. now apply Qclt_le_weak.
  - left. right. auto.
Qed.

Lemma year_asc_export_desc_trans (a b c : ProcessedData) :
  year_asc_export_desc a b -> year_asc_export_desc b c ->
  year_asc_export_desc a c.
Proof.
  unfold year_asc_export_desc.
  intros [Hab|[Eab Hab]] [Hbc|[Ebc Hbc]]; try (left; lia).
  right. split; [lia|]. now apply Qcle_trans with (出口额 b).
Qed.

Lemma precedes_byExportDesc (a b : ProcessedData) :
  precedes byExportDesc a b <-> export_desc a b.
Proof.
  unfold precedes, byExportDesc, export_desc. rewrite Qc_ltb_ge.
  apply Qc_sub_nonpos.
Qed.

Lemma sorted_by_precedes {A : Type} (compareFn : A -> A -> Qc)
    (R : A -> A -> Prop) (l : list A) :
  (forall a b, precedes compareFn a b <-> R a b) ->
  (forall a b, R a b \/ R b a) ->
  (forall a b c, R a b -> R b c -> R a c) ->
  StronglySorted R (sort compareFn l).
Proof.
  intros Hiff Htot Htrans.
  apply (StronglySorted_weaken (precedes compareFn)); [intros a b; apply Hiff|].
  apply sort_sorted.
  - intros a b. rewrite !Hiff. apply Htot.
  - intros a b c. rewrite !Hiff. apply Htrans.
Qed.

(** ** The pipeline as a whole *)

Section Pipeline.
Context `{Builtins}.

Lemma cleanedData_app (l1 l2 : list RawData.t) :
  cleanedData (l1 ++ l2) = cleanedData l1 ++ cleanedData l2.
Proof.
  apply omap_app.
Qed.

Lemma cleanedData_cons (row : RawData.t) (l : list RawData.t) :
  cleanedData (row :: l)
  = match cleanRow row with
    | Some c => c :: cleanedData l
    | None => cleanedData l
    end.
Proof. reflexivity. Qed.

Lemma cleanedData_sum (y : Z) (rawData : list RawData.t) :
  export_sum y (cleanedData rawData) = raw_sum y rawData.
Proof.
  unfold raw_sum. induction rawData as [|row l IH]; [reflexivity|].
  rewrite cleanedData_cons. simpl sum_where. unfold cleanRow.
  destruct (year_of row) as [y'|] eqn:Ey.
  - rewrite export_sum_cons, IH. unfold in_year. simpl.
    destruct (Z.eqb_spec y' y) as [->|Hne].
    + now rewrite bool_decide_eq_true_2.
    + rewrite bool_decide_eq_false_2 by congruence. ring.
  - rewrite bool_decide_eq_false_2 by congruence. exact IH.
Qed.

Lemma in_cleanedData (rawData : list RawData.t) (row : RawData.t) (y : Z) :
  In row rawData -> year_of row = Some y ->
  exists c, In c (cleanedData rawData)
    /\ 年份 c = y /\ 贸易伙伴名称 c = partner_of row
    /\ 出口额 c = rmb_of (RawData.人民币 row).
Proof.
  intros Hin Hy. induction rawData as [|a l IH]; [contradiction|].
  rewrite cleanedData_cons. destruct Hin as [->|Hin].
  - unfold cleanRow. rewrite Hy. eexists. split; [now left|]. simpl. auto.
  - destruct (IH Hin) as (c & Hc & Hrest). exists c.
    split; [|exact Hrest]. destruct (cleanRow a); [now right | exact Hc].
Qed.

(** The output is the sorted image of the aggregated rows. *)
Lemma in_processData (rawData : list RawData.t) (r : ProcessedData) :
  In r (processData rawData) <->
  exists q, In q (withMarketShare (aggregatedArray rawData))
    /\ r = withGrowth (withMarketShare (aggregatedArray rawData)) q.
Proof.
  unfold processData, finalData. rewrite sort_In, in_map_iff.
  split; intros (q & H1 & H2); exists q; auto.
Qed.

Lemma processData_perm (rawData : list RawData.t) :
  Permutation (processData rawData)
    (finalData (withMarketShare (aggregatedArray rawData))).
Proof. apply sort_perm. Qed.

Lemma rows_of_processData (rawData : list RawData.t) :
  Permutation (rows_of (processData rawData)) (aggregatedArray rawData).
Proof.
  unfold rows_of. rewrite (Permutation_map _ (processData_perm rawData)).
  unfold finalData, withMarketShare. rewrite !List.map_map. simpl.
  rewrite List.map_id. reflexivity.
Qed.

Lemma in_processData_row (rawData : list RawData.t) (r : ProcessedData) :
  In r (processData rawData) -> In (r : AggregatedRecord) (aggregatedArray rawData).
Proof.
  intros Hr. apply (Permutation_in _ (rows_of_processData rawData)).
  unfold rows_of. apply in_map_iff. exists r. now split.
Qed.

Lemma processData_of_row (rawData : list RawData.t) (row : AggregatedRecord) :
  In row (aggregatedArray rawData) ->
  exists r, In r (processData rawData) /\ (r : AggregatedRecord) = row.
Proof.
  intros Hrow.
  apply (Permutation_in _ (Permutation_sym (rows_of_processData rawData))) in Hrow.
  unfold rows_of in Hrow. apply in_map_iff in Hrow.
  destruct Hrow as (r & Hr & Hin). eauto.
Qed.
End Pipeline.

(** * The claims about [processData] *)

Section ProcessDataClaims.
Context `{Builtins}.

(** C1, as amended.  In exact arithmetic, for every input and every
    year, the export values of the aggregated records of that year,
    and of the records returned by [processData] for that year, add up
    to the sum of the coerced export values of the raw records whose
    extracted year is that year; a raw record whose year does not
    parse is in no such sum.  In binary64 the two sums can differ in
    the last place, since the aggregation adds the values of one
    partner before it adds the partners. *)
Theorem export_sum_preserved (rawData : list RawData.t) (y : Z) :
  export_sum y (aggregatedArray rawData) = raw_sum y rawData /\
  export_sum y (rows_of (processData rawData)) = raw_sum y rawData.
Proof.
  assert (Hagg : export_sum y (aggregatedArray rawData) = raw_sum y rawData).
  { unfold aggregatedArray. now rewrite aggregated_sum, cleanedData_sum. }
  split; [exact Hagg|]. rewrite <- Hagg.
  apply sum_where_perm, rows_of_processData.
Qed.

Lemma share_sum_eq (rawData : list RawData.t) (y : Z) :
  share_sum y (processData rawData)
  = (export_sum y (aggregatedArray rawData)
     / num_or (globalTotal (aggregatedArray rawData) !! y) 1)%Qc.
Proof.
  unfold share_sum.
  rewrite (sum_where_perm _ _ _ _ (processData_perm rawData)).
  unfold finalData. rewrite sum_where_map. simpl.
  unfold withMarketShare. rewrite sum_where_map. simpl.
  unfold export_sum. rewrite <- sum_where_div.
  apply sum_where_ext_in. intros row _ Hy.
  unfold in_year in Hy. apply Z.eqb_eq in Hy. now rewrite Hy.
Qed.

(** C2.  For every year whose entry in the table of yearly totals is
    not zero, the market shares of the records of that year add up to
    exactly 1. *)
Theorem share_sum_one (rawData : list RawData.t) (y : Z) (t : Qc) :
  globalTotal (aggregatedArray rawData) !! y = Some t ->
  t <> 0%Qc ->
  share_sum y (processData rawData) = 1%Qc.
Proof.
  intros Ht Hnz. rewrite share_sum_eq.
  rewrite <- (globalTotal_Some _ _ _ Ht), Ht. simpl.
  destruct (Qc_eqb t 0) eqn:E; [apply Qc_eqb_true in E; contradiction|].
  unfold Qcdiv. now apply Qcmult_inv_r.
Qed.

(** C3.  For every record of the output: when an aggregated record of
    the year before with the very same partner name exists and its
    export value is not zero, the growth is (current - previous) /
    |previous|; when every such record has export value zero, in
    particular when there is none, the growth is null, not zero. *)
Theorem growth_from_previous_year (rawData : list RawData.t) (r : ProcessedData) :
  In r (processData rawData) ->
  (forall p, In p (aggregatedArray rawData) ->
     年份 p = 年份 r - 1 -> 贸易伙伴名称 p = 贸易伙伴名称 r ->
     出口额 p <> 0%Qc ->
     同比增速 r = Some ((出口额 r - 出口额 p) / Qcabs (出口额 p))%Qc) /\
  ((forall p, In p (aggregatedArray rawData) ->
     年份 p = 年份 r - 1 -> 贸易伙伴名称 p = 贸易伙伴名称 r ->
     出口额 p = 0%Qc) ->
   同比增速 r = None).
Proof.
  intros Hr. apply in_processData in Hr. destruct Hr as (q & Hq & ->).
  split.
  - intros p Hp Hy Hn Hnz.
    pose proof (prevExport_found (cleanedData rawData) q p Hp Hy Hn) as Hprev.
    fold (aggregatedArray rawData) in Hprev.
    unfold withGrowth. simpl. rewrite Hprev.
    destruct (Qc_eqb (出口额 p) 0) eqn:E; [|reflexivity].
    apply Qc_eqb_true in E. contradiction.
  - intros Hzero. apply withGrowth_growth_None. simpl.
    destruct (Qc_eq_dec
      (prevExport_of (withMarketShare (aggregatedArray rawData)) q) 0%Qc)
      as [E|N]; [exact E|].
    destruct (prevExport_nonzero (cleanedData rawData) q N)
      as (p & Hp & Hy & Hn & He).
    fold (aggregatedArray rawData) in Hp, He.
    rewrite <- He. now apply Hzero.
Qed.

(** C4.  The array returned by [processData] is in ascending order of
    year, and within a year in descending order of export value:
    every record stands in that order to every later one. *)
Theorem processData_sorted (rawData : list RawData.t) :
  StronglySorted year_asc_export_desc (processData rawData).
Proof.
  unfold processData. apply sorted_by_precedes.
  - apply precedes_byYearThenExport.
  - apply year_asc_export_desc_total.
  - apply year_asc_export_desc_trans.
Qed.

(** C7, as amended.  The market share of a record is its export value
    divided by the total of its year, and by 1 when that total is
    zero, so the divisor is never zero; in a year whose total is zero
    the share of a record is its own export value, which is 0 when no
    export value of that year is negative. *)
Theorem market_share_divisor (rawData : list RawData.t) (r : ProcessedData) :
  In r (processData rawData) ->
  exists t, globalTotal (aggregatedArray rawData) !! 年份 r = Some t
    /\ (if Qc_eqb t 0 then 1%Qc else t) <> 0%Qc
    /\ 市场份额 r = (出口额 r / (if Qc_eqb t 0 then 1 else t))%Qc
    /\ (t = 0%Qc ->
        市场份额 r = 出口额 r
        /\ ((forall p, In p (processData rawData) ->
               年份 p = 年份 r -> (0 <= 出口额 p)%Qc) ->
            市场份额 r = 0%Qc)).
Proof.
  intros Hr. pose proof (in_processData_row _ _ Hr) as Hrow.
  destruct (globalTotal_is_Some _ _ Hrow) as [t Ht].
  exists t. split; [exact Ht|].
  assert (Hshare : 市场份额 r = (出口额 r / (if Qc_eqb t 0 then 1 else t))%Qc).
  { apply in_processData in Hr. destruct Hr as (q & Hq & ->).
    apply in_withMarketShare in Hq. destruct Hq as [_ Hq].
    simpl in *. now rewrite Hq, Ht. }
  split; [|split; [exact Hshare|]].
  - destruct (Qc_eqb t 0) eqn:E; [discriminate | now apply Qc_eqb_false].
  - intros Hz. subst t.
    assert (Hown : 市场份额 r = 出口额 r).
    { rewrite Hshare. simpl. unfold Qcdiv. change (/ 1)%Qc with 1%Qc. ring. }
    split; [exact Hown|]. intros Hpos. rewrite Hown.
    apply (sum_where_nonneg_zero (in_year (年份 r)) 出口额
             (aggregatedArray rawData)).
    + intros a Ha Hya. destruct (processData_of_row _ _ Ha) as (p & Hp & <-).
      apply Hpos; [exact Hp|]. unfold in_year in Hya. now apply Z.eqb_eq.
    + symmetry. apply (globalTotal_Some _ _ _ Ht).
    + exact Hrow.
    + unfold in_year. apply Z.eqb_refl.
Qed.

(** C10.  In every record of the output the prior-year export value
    is zero exactly when the growth is null; when the growth is not
    null, the prior-year value is the export value of the aggregated
    record of the same partner in the year before, and the growth is
    (own export value - prior-year value) / |prior-year value|. *)
Theorem previous_export_and_growth (rawData : list RawData.t) (r : ProcessedData) :
  In r (processData rawData) ->
  (去年出口额 r = 0%Qc <-> 同比增速 r = None) /\
  (forall g, 同比增速 r = Some g ->
     (exists p, In p (aggregatedArray rawData)
        /\ 年份 p = 年份 r - 1 /\ 贸易伙伴名称 p = 贸易伙伴名称 r
        /\ 出口额 p = 去年出口额 r)
     /\ g = ((出口额 r - 去年出口额 r) / Qcabs (去年出口额 r))%Qc).
Proof.
  intros Hr. apply in_processData in Hr. destruct Hr as (q & Hq & ->).
  split; [symmetry; apply withGrowth_growth_None|].
  intros g Hg. apply withGrowth_growth_Some in Hg. destruct Hg as [Hnz Hg].
  split; [|exact Hg].
  simpl in Hnz |- *.
  destruct (prevExport_nonzero (cleanedData rawData) q Hnz)
    as (p & Hp & Hy & Hn & He).
  exists p. auto.
Qed.
End ProcessDataClaims.

(** * The claim about [downloadCSV] *)

Section DownloadClaims.
Context `{Builtins} `{Papa}.

Lemma in_csvData (data : list ProcessedData) (row : list (jsstring * cell)) :
  In row (csvData data) <->
  exists r, In r data /\ 同比增速 r <> None /\ row = csvRow r.
Proof.
  unfold csvData. rewrite in_map_iff. split.
  - intros (r & <- & Hr). apply List.filter_In in Hr. destruct Hr as [Hr Hg].
    apply bool_decide_eq_true in Hg. exists r. repeat split; auto.
    destruct Hg as [g Hg]. congruence.
  - intros (r & Hr & Hg & ->). exists r. split; [reflexivity|].
    apply List.filter_In. split; [exact Hr|].
    apply bool_decide_eq_true. destruct (同比增速 r); [eauto | contradiction].
Qed.

(** C8, as amended.  The text of the download is a byte-order mark
    followed by what the CSV writer makes of the rows; the rows are
    those of the records with a non-null growth, one for each; a row
    has six columns, in this order: 年份, 贸易伙伴名称, 市场份额,
    同比增速, 市场份额_展示, 同比增速_展示 (no export value); they hold
    the year, the partner name, the raw share, the raw growth, the
    share times 100 with two decimals and a percent sign, and the
    growth times 100 with one decimal and a percent sign. *)
Theorem downloadCSV_contents (data : list ProcessedData) (filename : jsstring) :
  download_text (downloadCSV data filename)
    = byte_order_mark :: unparse (csvData data)
  /\ download_filename (downloadCSV data filename) = filename
  /\ length (csvData data)
     = length (List.filter (fun r => bool_decide (同比增速 r <> None)) data)
  /\ (forall row, In row (csvData data) <->
        exists r, In r data /\ 同比增速 r <> None /\ row = csvRow r)
  /\ (forall row, In row (csvData data) ->
        List.map fst row = csvColumns
        /\ obj_get row (js "出口额") = None)
  /\ (forall r g, 同比增速 r = Some g ->
        List.map snd (csvRow r)
        = [ CellNumber (Qc_of_Z (年份 r));
            CellText (贸易伙伴名称 r);
            CellNumber (市场份额 r);
            CellNumber g;
            CellText (toFixed (市场份额 r * Qc_of_Z 100)%Qc 2 ++ [percent_sign]);
            CellText (toFixed (g * Qc_of_Z 100)%Qc 1 ++ [percent_sign]) ]).
Proof.
  split; [reflexivity|]. split; [reflexivity|]. split; [|split; [|split]].
  - unfold csvData. rewrite List.length_map. f_equal.
    apply List.filter_ext. intros r.
    destruct (同比增速 r); [|reflexivity].
    rewrite bool_decide_eq_true_2 by eauto.
    now rewrite bool_decide_eq_true_2 by discriminate.
  - apply in_csvData.
  - intros row Hrow. apply in_csvData in Hrow.
    destruct Hrow as (r & _ & _ & ->). split; reflexivity.
  - intros r g Hg. unfold csvRow. simpl. now rewrite Hg.
Qed.
End DownloadClaims.

(** * The plotted records of the BCG matrix *)

Lemma map_plot_row_imap (f : nat -> ProcessedData -> PlotRecord)
    (l : list ProcessedData) :
  (forall i d, plot_row (f i d) = d) -> List.map plot_row (imap f l) = l.
Proof.
  revert f. induction l as [|d l IH]; intros f Hf; [reflexivity|].
  simpl. rewrite Hf. f_equal. apply IH. intros i x. apply Hf.
Qed.

Lemma In_firstn {A : Type} (n : nat) (l : list A) (x : A) :
  In x (firstn n l) -> In x l.
Proof.
  intros Hx. rewrite <- (firstn_skipn n l). apply in_or_app. now left.
Qed.

Section BCGClaims.
Variables (data : list ProcessedData) (year : Z) (st : BCGState).

Lemma plotData_rows :
  List.map plot_row (plotData (useMemo data year st)) = top35 data year st.
Proof.
  unfold useMemo. destruct (top35 data year st) as [|d l] eqn:E; [reflexivity|].
  cbn [length Nat.eqb plotData]. now apply map_plot_row_imap.
Qed.

Lemma plotData_lookup (i : nat) (d : PlotRecord) :
  plotData (useMemo data year st) !! i = Some d ->
  label d = if (i <? 20)%nat then 贸易伙伴名称 d else [].
Proof.
  unfold useMemo. destruct (top35 data year st) as [|d0 l] eqn:E.
  - simpl. rewrite lookup_nil. discriminate.
  - cbn [length Nat.eqb plotData]. rewrite list_lookup_imap.
    destruct ((d0 :: l) !! i) as [x|]; simpl; [|discriminate].
    intros [= <-]. reflexivity.
Qed.

Lemma in_filtered_by_country (d : ProcessedData) :
  In d (filtered_by_country data year st) ->
  In d data /\ 年份 d = year /\ 同比增速 d <> None /\ (0 < 市场份额 d)%Qc
  /\ (minShare st <= 市场份额 d * Qc_of_Z 100)%Qc
  /\ (市场份额 d * Qc_of_Z 100 <= maxShare st)%Qc.
Proof.
  intros Hd.
  assert (Hs : In d (filtered_by_share data year st)).
  { unfold filtered_by_country in Hd.
    destruct (non_empty (trim (countryFilter st))); [|exact Hd].
    destruct (0 <? length (keywords st))%nat; [|exact Hd].
    apply List.filter_In in Hd. tauto. }
  unfold filtered_by_share in Hs. apply List.filter_In in Hs.
  destruct Hs as [Hy Hs]. apply andb_true_iff in Hs. destruct Hs as [Hmin Hmax].
  apply Qc_leb_le in Hmin, Hmax.
  unfold filtered_by_year in Hy. apply List.filter_In in Hy.
  destruct Hy as [Hin Hy]. apply andb_true_iff in Hy. destruct Hy as [Hy Hpos].
  apply andb_true_iff in Hy. destruct Hy as [Hy Hg].
  apply Z.eqb_eq in Hy. apply bool_decide_eq_true in Hg. apply Qc_ltb_lt in Hpos.
  repeat split; auto. destruct Hg as [g Hg]. congruence.
Qed.

Lemma sorted_filtered :
  StronglySorted export_desc (sort byExportDesc (filtered_by_country data year st)).
Proof.
  apply sorted_by_precedes.
  - apply precedes_byExportDesc.
  - intros a b. unfold export_desc.
    destruct (Qclt_le_dec (出口额 a) (出口额 b)) as [Hlt|Hle];
      [right; now apply Qclt_le_weak | now left].
  - intros a b c. unfold export_desc. intros Hab Hbc.
    now apply Qcle_trans with (出口额 b).
Qed.

End BCGClaims.

(** * Further properties of [processData] *)

(** ** Sums over one aggregation key *)

Lemma sum_where_none {A : Type} (p : A -> bool) (f : A -> Qc) (l : list A) :
  (forall x, In x l -> p x = false) -> sum_where p f l = 0%Qc.
Proof.
  induction l as [|a l IH]; simpl; intros Hp; [reflexivity|].
  rewrite (Hp a) by now left. apply IH. intros x Hx. apply Hp. now right.
Qed.

Lemma same_key_true (y : Z) (n : jsstring) (r : AggregatedRecord) :
  same_key y n r = true <-> 年份 r = y /\ 贸易伙伴名称 r = n.
Proof.
  unfold same_key. rewrite andb_true_iff, Z.eqb_eq, jsstring_eqb_eq. reflexivity.
Qed.

Lemma same_key_respects (y : Z) (n : jsstring) (a b : AggregatedRecord) :
  年份 a = 年份 b -> 贸易伙伴名称 a = 贸易伙伴名称 b ->
  same_key y n a = same_key y n b.
Proof. unfold same_key. now intros -> ->. Qed.

Section SumsByKey.
Variable p : AggregatedRecord -> bool.
Hypothesis p_respects : forall a b,
  年份 a = 年份 b -> 贸易伙伴名称 a = 贸易伙伴名称 b -> p a = p b.

Lemma aggregate_step_sum_by (acc : list (jsstring * AggregatedRecord)) curr :
  keyed acc ->
  sum_where p 出口额 (Object_values (aggregate_step acc curr))
  = (sum_where p 出口额 (Object_values acc)
     + (if p curr then 出口额 curr else 0))%Qc.
Proof.
  intros Hk.
  destruct (aggregate_step_eq acc curr Hk) as (v & -> & Hy & Hn & _ & Hv).
  assert (Hpv : p v = p curr) by now apply p_respects.
  destruct (obj_get acc (key_of curr)) as [e|] eqn:Hg.
  - pose proof (keyed_get _ _ _ Hk Hg) as Hke.
    destruct (key_of_inj _ _ Hke) as [Hye Hne].
    assert (Hpe : p curr = p e) by now apply p_respects.
    assert (Hp : p v = p e) by congruence.
    pose proof (sum_where_obj_set p 出口额 acc _ v e Hg Hp) as Hs.
    rewrite Hpe. destruct (p e).
    + rewrite Hv in Hs.
      match goal with |- ?S' = _ =>
        replace S' with (S' + 出口额 e - 出口额 e)%Qc by ring end.
      rewrite Hs. ring.
    + rewrite !Qcplus_0_r in Hs. rewrite Hs. ring.
  - rewrite (obj_set_new _ _ _ Hg). unfold Object_values.
    rewrite List.map_app, sum_where_app. simpl. rewrite Hpv.
    destruct (p curr); rewrite ?Hv; ring.
Qed.

Lemma fold_aggregate_sum_by cleaned (acc : list (jsstring * AggregatedRecord)) :
  keyed acc ->
  sum_where p 出口额 (Object_values (fold_left aggregate_step cleaned acc))
  = (sum_where p 出口额 (Object_values acc) + sum_where p 出口额 cleaned)%Qc.
Proof.
  revert acc. induction cleaned as [|c cleaned IH]; simpl; intros acc Hk.
  - ring.
  - rewrite IH by now apply aggregate_step_keyed.
    rewrite aggregate_step_sum_by by exact Hk.
    destruct (p c); ring.
Qed.

Lemma aggregated_sum_by cleaned :
  sum_where p 出口额 (Object_values (aggregated cleaned))
  = sum_where p 出口额 cleaned.
Proof.
  unfold aggregated. rewrite fold_aggregate_sum_by by constructor.
  simpl. ring.
Qed.
End SumsByKey.

(** Among rows with distinct keys, the sum over one key is the export
    value of the row of that key, or zero when there is none. *)
Lemma sum_where_same_key (y : Z) (n : jsstring) (rows : list AggregatedRecord) :
  NoDup (List.map key_of rows) ->
  (exists r, In r rows /\ 年份 r = y /\ 贸易伙伴名称 r = n
     /\ sum_where (same_key y n) 出口额 rows = 出口额 r)
  \/ ((forall r, In r rows -> same_key y n r = false)
      /\ sum_where (same_key y n) 出口额 rows = 0%Qc).
Proof.
  induction rows as [|a rows IH]; simpl; intros Hnd.
  - right. split; [tauto | reflexivity].
  - apply NoDup_cons in Hnd. destruct Hnd as [Ha Hnd].
    destruct (same_key y n a) eqn:Ea.
    + left. exists a. apply same_key_true in Ea. destruct Ea as [Hy Hn].
      repeat split; auto.
      rewrite sum_where_none; [ring|].
      intros r Hr. apply not_true_iff_false. intros Er.
      apply same_key_true in Er. destruct Er as [Hry Hrn].
      apply Ha. apply list_elem_of_In.
      replace (key_of a) with (key_of r) by (unfold key_of; congruence).
      now apply in_map.
    + destruct (IH Hnd) as [(r & Hr & Hy & Hn & Hs)|[Hnone Hs]].
      * left. exists r. repeat split; auto.
      * right. split; [|exact Hs]. intros r [<-|Hr]; auto.
Qed.

(** ** Where the rows come from *)

Lemma obj_set_values_In {V : Type} (o : list (jsstring * V)) k v x :
  In x (Object_values (obj_set o k v)) -> x = v \/ In x (Object_values o).
Proof.
  unfold Object_values. induction o as [|[k' v'] o IH]; simpl.
  - intros [<-|[]]. now left.
  - destruct (jsstring_eqb k' k); simpl.
    + intros [<-|Hx]; auto.
    + intros [<-|Hx]; auto. destruct (IH Hx); auto.
Qed.

Lemma fold_aggregate_origin (P : AggregatedRecord -> Prop) cleaned
    (acc : list (jsstring * AggregatedRecord)) :
  (forall a b, 年份 a = 年份 b -> 贸易伙伴名称 a = 贸易伙伴名称 b -> P b -> P a) ->
  (forall c, In c cleaned -> P c) ->
  keyed acc ->
  (forall e, In e (Object_values acc) -> P e) ->
  forall r, In r (Object_values (fold_left aggregate_step cleaned acc)) -> P r.
Proof.
  intros HP. revert acc.
  induction cleaned as [|c cleaned IH]; simpl; intros acc Hc Hk He; [exact He|].
  apply IH.
  - intros x Hx. apply Hc. now right.
  - now apply aggregate_step_keyed.
  - intros e Hin.
    destruct (aggregate_step_eq acc c Hk) as (v & Hv & Hy & Hn & _).
    rewrite Hv in Hin. apply obj_set_values_In in Hin.
    destruct Hin as [->|Hin]; [|now apply He].
    apply (HP v c Hy Hn). apply Hc. now left.
Qed.

(** Every aggregated row has the year and partner of a cleaned row. *)
Lemma aggregated_origin cleaned (r : AggregatedRecord) :
  In r (Object_values (aggregated cleaned)) ->
  exists c, In c cleaned /\ 年份 c = 年份 r /\ 贸易伙伴名称 c = 贸易伙伴名称 r.
Proof.
  unfold aggregated.
  apply (fold_aggregate_origin
    (fun r => exists c, In c cleaned /\ 年份 c = 年份 r
                        /\ 贸易伙伴名称 c = 贸易伙伴名称 r)).
  - intros a b Hy Hn (c & Hc & Hcy & Hcn). exists c. split; [exact Hc|].
    split; congruence.
  - intros c Hc. exists c. auto.
  - constructor.
  - intros e [].
Qed.

Section PipelineOrigins.
Context `{Builtins}.

Lemma cleanedData_origin (rawData : list RawData.t) (c : AggregatedRecord) :
  In c (cleanedData rawData) ->
  exists row, In row rawData /\ year_of row = Some (年份 c)
    /\ partner_of row = 贸易伙伴名称 c
    /\ rmb_of (RawData.人民币 row) = 出口额 c.
Proof.
  induction rawData as [|a l IH]; [intros []|].
  rewrite cleanedData_cons. unfold cleanRow at 1.
  destruct (year_of a) as [y|] eqn:Ey.
  - intros [<-|Hc].
    + exists a. simpl. auto.
    + destruct (IH Hc) as (row & Hrow & Hrest). exists row. split; [now right | exact Hrest].
  - intros Hc. destruct (IH Hc) as (row & Hrow & Hrest).
    exists row. split; [now right | exact Hrest].
Qed.

Lemma aggregatedArray_origin (rawData : list RawData.t) (r : AggregatedRecord) :
  In r (aggregatedArray rawData) ->
  exists row, In row rawData /\ year_of row = Some (年份 r)
    /\ partner_of row = 贸易伙伴名称 r.
Proof.
  intros Hr. apply aggregated_origin in Hr. destruct Hr as (c & Hc & Hy & Hn).
  destruct (cleanedData_origin _ _ Hc) as (row & Hrow & Hry & Hrn & _).
  exists row. split; [exact Hrow|]. split; congruence.
Qed.

Lemma cleanedData_group_sum (y : Z) (n : jsstring) (rawData : list RawData.t) :
  sum_where (same_key y n) 出口额 (cleanedData rawData) = group_sum y n rawData.
Proof.
  unfold group_sum. induction rawData as [|row l IH]; [reflexivity|].
  rewrite cleanedData_cons. simpl sum_where. unfold cleanRow.
  destruct (year_of row) as [y'|] eqn:Ey.
  - simpl sum_where. rewrite IH. unfold same_key at 1. simpl.
    destruct (Z.eqb_spec y' y) as [->|Hne].
    + now rewrite bool_decide_eq_true_2.
    + now rewrite bool_decide_eq_false_2 by congruence.
  - rewrite bool_decide_eq_false_2 by congruence. exact IH.
Qed.

Lemma aggregatedArray_group_sum (y : Z) (n : jsstring) (rawData : list RawData.t) :
  sum_where (same_key y n) 出口额 (aggregatedArray rawData) = group_sum y n rawData.
Proof.
  unfold aggregatedArray.
  rewrite (aggregated_sum_by (same_key y n) (same_key_respects y n)).
  apply cleanedData_group_sum.
Qed.

Lemma aggregatedArray_export (rawData : list RawData.t) (r : AggregatedRecord) :
  In r (aggregatedArray rawData) ->
  出口额 r = group_sum (年份 r) (贸易伙伴名称 r) rawData.
Proof.
  intros Hr. rewrite <- aggregatedArray_group_sum.
  destruct (sum_where_same_key (年份 r) (贸易伙伴名称 r) (aggregatedArray rawData)
              (aggregated_NoDup _)) as [(a & Ha & Hy & Hn & ->)|[Hnone _]].
  - f_equal. now apply (aggregated_unique (cleanedData rawData)).
  - specialize (Hnone r Hr).
    assert (Ht : same_key (年份 r) (贸易伙伴名称 r) r = true)
      by now apply same_key_true.
    congruence.
Qed.

Lemma aggregatedArray_total (rawData : list RawData.t) (r : AggregatedRecord) :
  In r (aggregatedArray rawData) ->
  globalTotal (aggregatedArray rawData) !! 年份 r = Some (raw_sum (年份 r) rawData).
Proof.
  intros Hr. destruct (globalTotal_is_Some _ _ Hr) as [t Ht].
  rewrite Ht. f_equal. rewrite (globalTotal_Some _ _ _ Ht).
  unfold aggregatedArray. now rewrite aggregated_sum, cleanedData_sum.
Qed.

Lemma prevExport_group_sum (rawData : list RawData.t) (q : ShareRecord) :
  prevExport_of (withMarketShare (aggregatedArray rawData)) q
  = group_sum (年份 q - 1) (贸易伙伴名称 q) rawData.
Proof.
  rewrite <- aggregatedArray_group_sum.
  destruct (sum_where_same_key (年份 q - 1) (贸易伙伴名称 q)
              (aggregatedArray rawData) (aggregated_NoDup _))
    as [(a & Ha & Hy & Hn & ->)|[Hnone ->]].
  - now apply (prevExport_found (cleanedData rawData)).
  - destruct (Qc_eq_dec
      (prevExport_of (withMarketShare (aggregatedArray rawData)) q) 0%Qc)
      as [E|N]; [exact E|].
    destruct (prevExport_nonzero (cleanedData rawData) q N) as (p & Hp & Hy & Hn & _).
    fold (aggregatedArray rawData) in Hp. specialize (Hnone p Hp).
    assert (Ht : same_key (年份 q - 1) (贸易伙伴名称 q) p = true)
      by now apply same_key_true.
    congruence.
Qed.

(** Every record of the output is the one that [metric_of] writes for
    its year and partner. *)
Lemma processData_metric_of (rawData : list RawData.t) (r : ProcessedData) :
  In r (processData rawData) ->
  r = metric_of rawData (年份 r) (贸易伙伴名称 r).
Proof.
  intros Hr. pose proof (in_processData_row _ _ Hr) as Hrow.
  apply in_processData in Hr. destruct Hr as (q & Hq & ->).
  apply in_withMarketShare in Hq. destruct Hq as [_ Hs].
  pose proof (aggregatedArray_export _ _ Hrow) as He.
  pose proof (aggregatedArray_total _ _ Hrow) as Ht.
  pose proof (prevExport_group_sum rawData q) as Hp.
  unfold metric_of, metricRecord, withGrowth. simpl in *.
  rewrite Hp. destruct q as [[y n e] s]. simpl in *.
  rewrite Ht in Hs. simpl in Hs. subst s. rewrite <- He. reflexivity.
Qed.
End PipelineOrigins.

(** ** The year that [parseInt] reads from four characters *)

Lemma digit_value_bound (c : code_unit) (d : Z) :
  digit_value c = Some d -> 0 <= d <= 9.
Proof.
  unfold digit_value.
  destruct ((48 <=? c)%N && (c <=? 57)%N) eqn:E; [|discriminate].
  intros [= <-]. apply andb_true_iff in E. destruct E as [E1 E2].
  apply N.leb_le in E1, E2. lia.
Qed.

Lemma read_digits_Some_bound (s : jsstring) (a r : Z) :
  0 <= a -> read_digits (Some a) s = Some r ->
  0 <= r < (a + 1) * 10 ^ Z.of_nat (length s).
Proof.
  revert a. induction s as [|c s IH]; simpl length; intros a Ha.
  - simpl. intros [= <-]. lia.
  - rewrite Nat2Z.inj_succ, Z.pow_succ_r by lia.
    assert (Hpow : 0 < 10 ^ Z.of_nat (length s)) by (apply Z.pow_pos_nonneg; lia).
    simpl. destruct (digit_value c) as [d|] eqn:Ed.
    + apply digit_value_bound in Ed. intros Hr.
      apply IH in Hr; [|lia]. nia.
    + intros [= <-]. nia.
Qed.

Lemma read_digits_None_bound (s : jsstring) (r : Z) :
  read_digits None s = Some r -> 0 <= r < 10 ^ Z.of_nat (length s).
Proof.
  destruct s as [|c s]; simpl length; [discriminate|].
  rewrite Nat2Z.inj_succ, Z.pow_succ_r by lia.
  assert (Hpow : 0 < 10 ^ Z.of_nat (length s)) by (apply Z.pow_pos_nonneg; lia).
  simpl. destruct (digit_value c) as [d|] eqn:Ed; [|discriminate].
  apply digit_value_bound in Ed. intros Hr.
  apply read_digits_Some_bound in Hr; [|lia]. nia.
Qed.

Lemma skip_whitespace_length (s : jsstring) :
  (length (skip_whitespace s) <= length s)%nat.
Proof.
  induction s as [|c s IH]; simpl; [lia|].
  destruct (is_whitespace c); simpl; lia.
Qed.

Lemma parseInt_four (s : jsstring) (n : Z) :
  (length s <= 4)%nat -> parseInt s = Some n -> -999 <= n <= 9999.
Proof.
  intros Hlen. unfold parseInt.
  pose proof (skip_whitespace_length s) as Hskip.
  destruct (skip_whitespace s) as [|c r]; [discriminate|]. simpl in Hskip.
  assert (Hp3 : 10 ^ Z.of_nat (length r) <= 10 ^ 3)
    by (apply Z.pow_le_mono_r; lia).
  assert (Hp4 : 10 ^ Z.of_nat (length (c :: r)) <= 10 ^ 4)
    by (apply Z.pow_le_mono_r; simpl length; lia).
  destruct (N.eqb c hyphen); [|destruct (N.eqb c plus_sign)].
  - destruct (read_digits None r) as [m|] eqn:Em; [|discriminate].
    apply read_digits_None_bound in Em. simpl. intros [= <-]. lia.
  - intros Em. apply read_digits_None_bound in Em. lia.
  - intros Em. apply read_digits_None_bound in Em. lia.
Qed.

Lemma 未知_non_empty : 未知 <> [].
Proof. vm_compute. discriminate. Qed.

Lemma sum_where_ge_member {A : Type} (p : A -> bool) (f : A -> Qc)
    (l : list A) (x : A) :
  (forall z, In z l -> p z = true -> (0 <= f z)%Qc) ->
  In x l -> p x = true -> (f x <= sum_where p f l)%Qc.
Proof.
  induction l as [|a l IH]; simpl; intros Hpos Hx Hp; [contradiction|].
  assert (Hpos' : forall z, In z l -> p z = true -> (0 <= f z)%Qc)
    by (intros z Hz; apply (Hpos z); now right).
  pose proof (sum_where_nonneg p f l Hpos') as Hl.
  destruct Hx as [->|Hx].
  - rewrite Hp. rewrite <- (Qcplus_0_r (f x)) at 1.
    apply Qcplus_le_compat; [apply Qcle_refl | exact Hl].
  - specialize (IH Hpos' Hx Hp). destruct (p a) eqn:Ea; [|exact IH].
    rewrite <- (Qcplus_0_l (f x)).
    apply Qcplus_le_compat; [apply (Hpos a); [now left | exact Ea] | exact IH].
Qed.

Lemma NoDup_map_inv {A B : Type} (f : A -> B) (l : list A) :
  NoDup (List.map f l) -> NoDup l.
Proof.
  induction l as [|a l IH]; simpl; intros Hnd; [constructor|].
  apply NoDup_cons in Hnd. destruct Hnd as [Ha Hnd].
  apply NoDup_cons. split; [|now apply IH].
  intros Hin. apply Ha. apply list_elem_of_In, in_map.
  now apply list_elem_of_In.
Qed.

Lemma NoDup_map_factor {A B C : Type} (f : A -> B) (g : B -> C) (l : list A) :
  NoDup (List.map (fun x => g (f x)) l) -> NoDup (List.map f l).
Proof.
  induction l as [|a l IH]; simpl; intros Hnd; [constructor|].
  apply NoDup_cons in Hnd. destruct Hnd as [Ha Hnd].
  apply NoDup_cons. split; [|now apply IH].
  intros Hin. apply Ha. apply list_elem_of_In in Hin. apply list_elem_of_In.
  apply in_map_iff in Hin. destruct Hin as (x & Hx & Hin).
  apply in_map_iff. exists x. split; [now rewrite Hx | exact Hin].
Qed.

Section ProcessDataExtras.
Context `{Builtins}.

Lemma metric_of_in_processData (rawData : list RawData.t) (row : RawData.t) (y : Z) :
  In row rawData -> year_of row = Some y ->
  In (metric_of rawData y (partner_of row)) (processData rawData).
Proof.
  intros Hin Hy.
  destruct (in_cleanedData rawData row y Hin Hy) as (c & Hc & Hcy & Hcn & _).
  destruct (aggregated_covers _ c Hc) as (a & Ha & Hay & Han).
  destruct (processData_of_row rawData a Ha) as (r & Hr & Hra).
  rewrite (processData_metric_of _ _ Hr) in Hr.
  rewrite Hra in Hr. now rewrite Hay, Han, Hcy, Hcn in Hr.
Qed.

Lemma processData_NoDup_keys (rawData : list RawData.t) :
  NoDup (List.map key_pair (rows_of (processData rawData))).
Proof.
  rewrite (rows_of_processData rawData).
  apply (NoDup_map_factor key_pair
    (fun kp => Z_toString (fst kp) ++ hyphen :: snd kp)).
  apply (aggregated_NoDup (cleanedData rawData)).
Qed.

(** X1.  The output of [processData] has a record for exactly the
    pairs of year and partner of the raw records whose year parses, and
    the record of a pair is determined by sums over the raw data: its
    export value is the sum of the coerced values of the pair, its share
    is that value over the sum of the year (over 1 when that sum is
    zero), its prior-year value is the sum of the same partner in the
    year before, zero when there is no such record, and its growth
    follows from the two.  The sums and quotients are those of exact
    arithmetic; in binary64 a sum depends on the order in which its
    terms are added. *)
Theorem processData_records (rawData : list RawData.t) (r : ProcessedData) :
  In r (processData rawData) <->
  exists row y, In row rawData /\ year_of row = Some y
    /\ r = metric_of rawData y (partner_of row).
Proof.
  split.
  - intros Hr. pose proof (processData_metric_of _ _ Hr) as Hm.
    destruct (aggregatedArray_origin _ _ (in_processData_row _ _ Hr))
      as (row & Hrow & Hy & Hn).
    exists row, (年份 r). rewrite Hn. auto.
  - intros (row & y & Hrow & Hy & ->).
    now apply metric_of_in_processData.
Qed.

(** X2.  No two records of the output have the same year and the same
    partner name. *)
Theorem processData_keys_distinct (rawData : list RawData.t)
    (i j : nat) (a b : ProcessedData) :
  processData rawData !! i = Some a ->
  processData rawData !! j = Some b ->
  年份 a = 年份 b -> 贸易伙伴名称 a = 贸易伙伴名称 b ->
  i = j.
Proof.
  intros Ha Hb Hy Hn.
  pose proof (processData_NoDup_keys rawData) as Hnd.
  change (List.map key_pair (rows_of (processData rawData)))
    with (key_pair <$> ((fun r : ProcessedData => r : AggregatedRecord)
                          <$> processData rawData)) in Hnd.
  apply (NoDup_lookup _ i j (key_pair a) Hnd).
  - rewrite !list_lookup_fmap. now rewrite Ha.
  - rewrite !list_lookup_fmap. rewrite Hb. simpl.
    unfold key_pair. now rewrite Hy, Hn.
Qed.

(** X3.  The order of the raw records does not matter: inputs that are
    permutations of each other give outputs that are permutations of
    each other. *)
Theorem processData_permutation (rawData rawData' : list RawData.t) :
  Permutation rawData rawData' ->
  Permutation (processData rawData) (processData rawData').
Proof.
  intros Hperm.
  assert (Hmetric : forall y n, metric_of rawData y n = metric_of rawData' y n).
  { intros y n. unfold metric_of, group_sum, raw_sum.
    now rewrite !(sum_where_perm _ _ _ _ Hperm). }
  assert (Hsub : forall l l', Permutation l l' ->
            (forall y n, metric_of l y n = metric_of l' y n) ->
            forall r, In r (processData l) -> In r (processData l')).
  { intros l l' Hp Hm r Hr.
    rewrite (processData_metric_of _ _ Hr).
    destruct (aggregatedArray_origin _ _ (in_processData_row _ _ Hr))
      as (row & Hrow & Hy & <-).
    rewrite Hm. apply metric_of_in_processData; [|exact Hy].
    now apply (Permutation_in _ Hp). }
  apply NoDup_Permutation.
  - apply (NoDup_map_inv (fun r : ProcessedData => key_pair r)).
    pose proof (processData_NoDup_keys rawData) as Hnd.
    unfold rows_of in Hnd. now rewrite List.map_map in Hnd.
  - apply (NoDup_map_inv (fun r : ProcessedData => key_pair r)).
    pose proof (processData_NoDup_keys rawData') as Hnd.
    unfold rows_of in Hnd. now rewrite List.map_map in Hnd.
  - intros r. rewrite !list_elem_of_In. split.
    + now apply Hsub.
    + apply Hsub; [now symmetry | intros y n; symmetry; apply Hmetric].
Qed.

(** X4.  The year of every record of the output is an integer from
    -999 to 9999: it is read from at most four characters. *)
Theorem processData_year_range (rawData : list RawData.t) (r : ProcessedData) :
  In r (processData rawData) -> -999 <= 年份 r <= 9999.
Proof.
  intros Hr.
  destruct (aggregatedArray_origin _ _ (in_processData_row _ _ Hr))
    as (row & _ & Hy & _).
  unfold year_of in Hy. apply parseInt_four in Hy; [exact Hy|].
  unfold substring0. apply firstn_le_length.
Qed.

(** X5.  The partner name of every record of the output is not empty:
    an absent or empty name has been replaced by 未知. *)
Theorem processData_partner_non_empty (rawData : list RawData.t) (r : ProcessedData) :
  In r (processData rawData) ->
  贸易伙伴名称 r <> []
  /\ exists row, In row rawData
       /\ 贸易伙伴名称 r
          = match RawData.贸易伙伴名称 row with
            | Some [] | None => 未知
            | Some name => name
            end.
Proof.
  intros Hr.
  destruct (aggregatedArray_origin _ _ (in_processData_row _ _ Hr))
    as (row & Hrow & _ & Hn).
  rewrite <- Hn. unfold partner_of. split.
  - destruct (RawData.贸易伙伴名称 row) as [[|c s]|];
      [apply 未知_non_empty | discriminate | apply 未知_non_empty].
  - exists row. split; [exact Hrow|].
    now destruct (RawData.贸易伙伴名称 row) as [[|c s]|].
Qed.

(** X6.  The output is empty exactly when no raw record has a year
    that parses; in particular it is empty for the empty input. *)
Theorem processData_empty_iff (rawData : list RawData.t) :
  processData rawData = [] <-> forall row, In row rawData -> year_of row = None.
Proof.
  split.
  - intros Hnil row Hrow. destruct (year_of row) as [y|] eqn:Hy; [|reflexivity].
    pose proof (metric_of_in_processData rawData row y Hrow Hy) as Hin.
    rewrite Hnil in Hin. destruct Hin.
  - intros Hnone.
    assert (Hclean : cleanedData rawData = []).
    { induction rawData as [|a l IH]; [reflexivity|].
      rewrite cleanedData_cons. unfold cleanRow.
      rewrite (Hnone a) by now left.
      apply IH. intros row Hrow. apply Hnone. now right. }
    unfold processData, aggregatedArray. now rewrite Hclean.
Qed.

(** X7.  When no record of a year has a negative export value, every
    market share of that year lies between 0 and 1. *)
Theorem market_share_bounds (rawData : list RawData.t) (r : ProcessedData) :
  In r (processData rawData) ->
  (forall p, In p (processData rawData) -> 年份 p = 年份 r -> (0 <= 出口额 p)%Qc) ->
  (0 <= 市场份额 r <= 1)%Qc.
Proof.
  intros Hr Hpos. pose proof (in_processData_row _ _ Hr) as Hrow.
  assert (Hrows : forall a, In a (aggregatedArray rawData) ->
            in_year (年份 r) a = true -> (0 <= 出口额 a)%Qc).
  { intros a Ha Hya. destruct (processData_of_row _ _ Ha) as (p & Hp & <-).
    apply Hpos; [exact Hp|]. unfold in_year in Hya. now apply Z.eqb_eq. }
  assert (Hyr : in_year (年份 r) r = true) by (unfold in_year; apply Z.eqb_refl).
  pose proof (sum_where_ge_member _ _ _ _ Hrows Hrow Hyr) as Hle.
  fold (export_sum (年份 r) (aggregatedArray rawData)) in Hle.
  pose proof (Hrows _ Hrow Hyr) as He.
  destruct (globalTotal_is_Some _ _ Hrow) as [t Ht].
  rewrite <- (globalTotal_Some _ _ _ Ht) in Hle.
  assert (Hshare : 市场份额 r = (出口额 r / (if Qc_eqb t 0 then 1 else t))%Qc).
  { apply in_processData in Hr. destruct Hr as (q & Hq & ->).
    apply in_withMarketShare in Hq. destruct Hq as [_ Hq].
    simpl in *. now rewrite Hq, Ht. }
  rewrite Hshare. destruct (Qc_eqb t 0) eqn:E.
  - apply Qc_eqb_true in E. subst t.
    assert (Hz : 出口额 r = 0%Qc) by now apply Qcle_antisym.
    rewrite Hz. unfold Qcdiv. change (/ 1)%Qc with 1%Qc.
    replace (0 * 1)%Qc with 0%Qc by ring. split; [apply Qcle_refl | discriminate].
  - apply Qc_eqb_false in E.
    assert (Ht0 : (0 < t)%Qc).
    { destruct (Qcle_lt_or_eq _ _ (Qcle_trans _ _ _ He Hle)) as [Hlt|Heq];
        [exact Hlt | congruence]. }
    assert (Hmul : (出口额 r / t * t = 出口额 r)%Qc) by (field; exact E).
    split; apply (Qcmult_lt_0_le_reg_r _ _ t Ht0); rewrite Hmul.
    + now replace (0 * t)%Qc with 0%Qc by ring.
    + now replace (1 * t)%Qc with t by ring.
Qed.
End ProcessDataExtras.

(** * The download and the BCG view of a processed dataset *)

Lemma filter_none {A : Type} (p : A -> bool) (l : list A) :
  (forall x, In x l -> p x = false) -> List.filter p l = [].
Proof.
  induction l as [|a l IH]; simpl; intros Hp; [reflexivity|].
  rewrite (Hp a) by now left. apply IH. intros x Hx. apply Hp. now right.
Qed.

Section ProcessedViews.
Context `{Builtins}.

Lemma growth_Some_baseline (rawData : list RawData.t) (r : ProcessedData) :
  In r (processData rawData) -> 同比增速 r <> None ->
  exists p, In p (processData rawData)
    /\ 年份 p = 年份 r - 1 /\ 贸易伙伴名称 p = 贸易伙伴名称 r
    /\ 出口额 p <> 0%Qc.
Proof.
  intros Hr Hg. apply in_processData in Hr. destruct Hr as (q & Hq & ->).
  assert (Hnz : prevExport_of (withMarketShare (aggregatedArray rawData)) q <> 0%Qc).
  { intros E. apply Hg. now apply withGrowth_growth_None. }
  destruct (prevExport_nonzero (cleanedData rawData) q Hnz)
    as (a & Ha & Hy & Hn & He).
  destruct (processData_of_row rawData a Ha) as (p & Hp & Hpa).
  exists p. rewrite Hpa. repeat split; auto. now rewrite He.
Qed.

Lemma baseline_growth_Some (rawData : list RawData.t) (r p : ProcessedData) :
  In r (processData rawData) -> In p (processData rawData) ->
  年份 p = 年份 r - 1 -> 贸易伙伴名称 p = 贸易伙伴名称 r ->
  出口额 p <> 0%Qc -> 同比增速 r <> None.
Proof.
  intros Hr Hp Hy Hn Hnz Hnone.
  pose proof (in_processData_row _ _ Hp) as Hrow.
  apply in_processData in Hr. destruct Hr as (q & Hq & ->).
  apply withGrowth_growth_None in Hnone. simpl in *.
  pose proof (prevExport_found (cleanedData rawData) q p Hrow Hy Hn) as Hfound.
  fold (aggregatedArray rawData) in Hfound. congruence.
Qed.

(** X8.  The download of a processed dataset has a row for a record
    exactly when the same partner has a record of the year before with
    a nonzero export value; a dataset whose parseable periods all fall
    in one year therefore downloads no row at all. *)
Theorem download_rows_need_previous_year (rawData : list RawData.t) :
  (forall row, In row (csvData (processData rawData)) <->
     exists r p, In r (processData rawData) /\ row = csvRow r
       /\ In p (processData rawData)
       /\ 年份 p = 年份 r - 1 /\ 贸易伙伴名称 p = 贸易伙伴名称 r
       /\ 出口额 p <> 0%Qc)
  /\ (forall y,
        (forall row, In row rawData -> year_of row = Some y \/ year_of row = None) ->
        csvData (processData rawData) = []).
Proof.
  split.
  - intros row. rewrite in_csvData. split.
    + intros (r & Hr & Hg & ->).
      destruct (growth_Some_baseline _ _ Hr Hg) as (p & Hp & Hrest).
      exists r, p. auto.
    + intros (r & p & Hr & -> & Hp & Hy & Hn & Hnz).
      exists r. split; [exact Hr|]. split; [|reflexivity].
      now apply (baseline_growth_Some rawData r p).
  - intros y Hone. unfold csvData. rewrite filter_none; [reflexivity|].
    intros r Hr. apply bool_decide_eq_false. intros [g Hg].
    assert (Hyear : forall a, In a (processData rawData) -> 年份 a = y).
    { intros a Ha.
      destruct (aggregatedArray_origin _ _ (in_processData_row _ _ Ha))
        as (row & Hrow & Hy & _).
      destruct (Hone row Hrow) as [E|E]; congruence. }
    destruct (growth_Some_baseline rawData r Hr) as (p & Hp & Hy & _);
      [congruence|].
    rewrite (Hyear p Hp), (Hyear r Hr) in Hy. lia.
Qed.

(** X9.  The BCG view of a processed dataset is empty for a year whose
    preceding year has no record, whatever the filters: no record of
    such a year has a growth. *)
Theorem bcg_empty_without_previous_year (rawData : list RawData.t)
    (year : Z) (st : BCGState) :
  (forall p, In p (processData rawData) -> 年份 p <> year - 1) ->
  plotData (useMemo (processData rawData) year st) = []
  /\ xRef (useMemo (processData rawData) year st) = 0%Qc.
Proof.
  intros Hprev.
  assert (Hyear : filtered_by_year (processData rawData) year = []).
  { unfold filtered_by_year. apply filter_none. intros d Hd.
    destruct (Z.eqb_spec (年份 d) year) as [Hy|Hy]; [|reflexivity].
    rewrite bool_decide_eq_false_2; [reflexivity|].
    intros [g Hg].
    destruct (growth_Some_baseline rawData d Hd) as (p & Hp & Hpy & _);
      [congruence|].
    apply (Hprev p Hp). congruence. }
  assert (Htop : top35 (processData rawData) year st = []).
  { unfold top35, filtered_by_country, filtered_by_share. rewrite Hyear. simpl.
    destruct (non_empty (trim (countryFilter st))); [|reflexivity].
    destruct (0 <? length (keywords st))%nat; reflexivity. }
  unfold useMemo. rewrite Htop. split; reflexivity.
Qed.
End ProcessedViews.

(** * Further properties of the BCG matrix *)

(** ** Minimum, maximum and mean *)

Lemma Qc_leb_false (x y : Qc) : Qc_leb x y = false <-> (y < x)%Qc.
Proof.
  rewrite <- not_true_iff_false, Qc_leb_le.
  split; [apply Qcnot_le_lt | apply Qclt_not_le].
Qed.

Lemma Qcmin_spec (x y : Qc) :
  (Qcmin x y <= x)%Qc /\ (Qcmin x y <= y)%Qc /\ (Qcmin x y = x \/ Qcmin x y = y).
Proof.
  unfold Qcmin. destruct (Qc_leb x y) eqn:E.
  - apply Qc_leb_le in E.
    split; [apply Qcle_refl | split; [exact E | now left]].
  - apply Qc_leb_false in E.
    split; [now apply Qclt_le_weak | split; [apply Qcle_refl | now right]].
Qed.

Lemma Qcmax_spec (x y : Qc) :
  (x <= Qcmax x y)%Qc /\ (y <= Qcmax x y)%Qc /\ (Qcmax x y = x \/ Qcmax x y = y).
Proof.
  unfold Qcmax. destruct (Qc_leb x y) eqn:E.
  - apply Qc_leb_le in E.
    split; [exact E | split; [apply Qcle_refl | now right]].
  - apply Qc_leb_false in E.
    split; [apply Qcle_refl | split; [now apply Qclt_le_weak | now left]].
Qed.

Lemma Math_min_spec (x : Qc) (xs : list Qc) :
  In (Math_min x xs) (x :: xs)
  /\ forall z, In z (x :: xs) -> (Math_min x xs <= z)%Qc.
Proof.
  unfold Math_min. revert x. induction xs as [|a xs IH]; intros x; simpl.
  - split; [now left|]. intros z [<-|[]]. apply Qcle_refl.
  - destruct (IH (Qcmin x a)) as [Hin Hle].
    destruct (Qcmin_spec x a) as (Hx & Ha & Hor). split.
    + destruct Hin as [Hin|Hin]; [|now right; right].
      rewrite <- Hin. destruct Hor as [->| ->]; auto.
    + intros z [<-|[<-|Hz]].
      * apply Qcle_trans with (Qcmin x a); [apply Hle; now left | exact Hx].
      * apply Qcle_trans with (Qcmin x a); [apply Hle; now left | exact Ha].
      * apply Hle. now right.
Qed.

Lemma Math_max_spec (x : Qc) (xs : list Qc) :
  In (Math_max x xs) (x :: xs)
  /\ forall z, In z (x :: xs) -> (z <= Math_max x xs)%Qc.
Proof.
  unfold Math_max. revert x. induction xs as [|a xs IH]; intros x; simpl.
  - split; [now left|]. intros z [<-|[]]. apply Qcle_refl.
  - destruct (IH (Qcmax x a)) as [Hin Hle].
    destruct (Qcmax_spec x a) as (Hx & Ha & Hor). split.
    + destruct Hin as [Hin|Hin]; [|now right; right].
      rewrite <- Hin. destruct Hor as [->| ->]; auto.
    + intros z [<-|[<-|Hz]].
      * apply Qcle_trans with (Qcmax x a); [exact Hx | apply Hle; now left].
      * apply Qcle_trans with (Qcmax x a); [exact Ha | apply Hle; now left].
      * apply Hle. now right.
Qed.

Lemma Qc_of_Z_succ (n : nat) :
  Qc_of_Z (Z.of_nat (S n)) = (Qc_of_Z (Z.of_nat n) + 1)%Qc.
Proof.
  unfold Qc_of_Z. apply Qc_is_canon. simpl.
  rewrite !Qred_correct. rewrite Nat2Z.inj_succ.
  unfold Z.succ. rewrite inject_Z_plus. reflexivity.
Qed.

Lemma fold_left_sum_bounds {A : Type} (f : A -> Qc) (l : list A) (m M : Qc) :
  (forall x, In x l -> (m <= f x)%Qc /\ (f x <= M)%Qc) ->
  forall a,
    (a + m * Qc_of_Z (Z.of_nat (length l))
     <= fold_left (fun (sum : Qc) (d : A) => sum + f d) l a)%Qc
    /\ (fold_left (fun (sum : Qc) (d : A) => sum + f d) l a
        <= a + M * Qc_of_Z (Z.of_nat (length l)))%Qc.
Proof.
  induction l as [|x l IH]; intros Hb a.
  - assert (Hz : Qc_of_Z (Z.of_nat 0) = 0%Qc) by (apply Qc_is_canon; reflexivity).
    simpl fold_left. simpl length. rewrite Hz.
    replace (a + m * 0)%Qc with a by ring.
    replace (a + M * 0)%Qc with a by ring. split; apply Qcle_refl.
  - simpl fold_left. simpl length. rewrite Qc_of_Z_succ.
    destruct (Hb x) as [Hm HM]; [now left|].
    destruct (IH (fun z Hz => Hb z (or_intror Hz)) (a + f x)%Qc) as [Hlo Hhi].
    split.
    + apply Qcle_trans with (a + f x + m * Qc_of_Z (Z.of_nat (length l)))%Qc;
        [|exact Hlo].
      replace (a + m * (Qc_of_Z (Z.of_nat (length l)) + 1))%Qc
        with ((a + m * Qc_of_Z (Z.of_nat (length l))) + m)%Qc by ring.
      replace (a + f x + m * Qc_of_Z (Z.of_nat (length l)))%Qc
        with ((a + m * Qc_of_Z (Z.of_nat (length l))) + f x)%Qc by ring.
      apply Qcplus_le_compat; [apply Qcle_refl | exact Hm].
    + apply Qcle_trans with (a + f x + M * Qc_of_Z (Z.of_nat (length l)))%Qc;
        [exact Hhi|].
      replace (a + M * (Qc_of_Z (Z.of_nat (length l)) + 1))%Qc
        with ((a + M * Qc_of_Z (Z.of_nat (length l))) + M)%Qc by ring.
      replace (a + f x + M * Qc_of_Z (Z.of_nat (length l)))%Qc
        with ((a + M * Qc_of_Z (Z.of_nat (length l))) + f x)%Qc by ring.
      apply Qcplus_le_compat; [apply Qcle_refl | exact HM].
Qed.

(** The mean of a non-empty list lies between its bounds. *)
Lemma mean_bounds {A : Type} (f : A -> Qc) (l : list A) (m M : Qc) :
  l <> [] ->
  (forall x, In x l -> (m <= f x)%Qc /\ (f x <= M)%Qc) ->
  (m <= fold_left (fun (sum : Qc) (d : A) => sum + f d) l 0
        / Qc_of_Z (Z.of_nat (length l)))%Qc
  /\ (fold_left (fun (sum : Qc) (d : A) => sum + f d) l 0
        / Qc_of_Z (Z.of_nat (length l)) <= M)%Qc.
Proof.
  intros Hne Hb.
  assert (Hn : (0 < Qc_of_Z (Z.of_nat (length l)))%Qc).
  { apply Qc_of_Z_pos. destruct l; [congruence | simpl; lia]. }
  assert (Hnz : Qc_of_Z (Z.of_nat (length l)) <> 0%Qc).
  { intros E. rewrite E in Hn. now apply (Qclt_not_le _ _ Hn), Qcle_refl. }
  destruct (fold_left_sum_bounds f l m M Hb 0%Qc) as [Hlo Hhi].
  rewrite !Qcplus_0_l in Hlo, Hhi.
  split; apply (Qcmult_lt_0_le_reg_r _ _ _ Hn);
    match goal with |- context [(?s / ?n * ?n)%Qc] =>
      replace (s / n * n)%Qc with s by (field; exact Hnz) end;
    assumption.
Qed.

Lemma Qc_scale_down (x : Qc) : (0 < x)%Qc ->
  (0 < x * Q2Qc (6 # 10))%Qc /\ (x * Q2Qc (6 # 10) < x)%Qc.
Proof.
  intros Hx. split.
  - replace 0%Qc with (0 * Q2Qc (6 # 10))%Qc by ring.
    now apply Qcmult_lt_compat_r.
  - replace (x * Q2Qc (6 # 10))%Qc with (Q2Qc (6 # 10) * x)%Qc by ring.
    replace x with (1 * x)%Qc at 2 by ring.
    now apply Qcmult_lt_compat_r.
Qed.

Lemma Qc_scale_up (x : Qc) : (0 < x)%Qc -> (x < x * Q2Qc (18 # 10))%Qc.
Proof.
  intros Hx.
  replace (x * Q2Qc (18 # 10))%Qc with (Q2Qc (18 # 10) * x)%Qc by ring.
  replace x with (1 * x)%Qc at 1 by ring.
  now apply Qcmult_lt_compat_r.
Qed.

Lemma Qc_lt_add_pos (a c : Qc) : (0 < c)%Qc -> (a < a + c)%Qc.
Proof.
  intros Hc. apply Qcnot_le_lt. intros Hle. apply (Qclt_not_le _ _ Hc).
  replace c with ((a + c) + - a)%Qc by ring.
  replace 0%Qc with (a + - a)%Qc by ring.
  apply Qcplus_le_compat; [exact Hle | apply Qcle_refl].
Qed.

(** ** Texts that hold no keyword *)

Lemma skip_whitespace_all (s : jsstring) :
  forallb is_whitespace s = true -> skip_whitespace s = [].
Proof.
  induction s as [|c s IH]; simpl; [reflexivity|].
  intros Hall. apply andb_true_iff in Hall. destruct Hall as [-> Hall]. auto.
Qed.

Lemma trim_all_whitespace (s : jsstring) :
  forallb is_whitespace s = true -> trim s = [].
Proof. intros Hall. unfold trim. now rewrite (skip_whitespace_all s Hall). Qed.

Lemma split_on_pieces (sep : code_unit -> bool) (W : code_unit -> bool)
    (s : jsstring) :
  forallb (fun c => sep c || W c) s = true ->
  forall piece, In piece (split_on sep s) -> forallb W piece = true.
Proof.
  induction s as [|c s IH]; simpl.
  - intros _ piece [<-|[]]. reflexivity.
  - intros Hall. apply andb_true_iff in Hall. destruct Hall as [Hc Hall].
    specialize (IH Hall). destruct (sep c) eqn:Es.
    + intros piece [<-|Hp]; [reflexivity | now apply IH].
    + simpl in Hc. destruct (split_on sep s) as [|p ps].
      * intros piece [<-|[]]. simpl. now rewrite Hc.
      * intros piece [<-|Hp].
        -- simpl. rewrite Hc. apply IH. now left.
        -- apply IH. now right.
Qed.

Lemma keywords_none (st : BCGState) :
  forallb separator_or_space (countryFilter st) = true -> keywords st = [].
Proof.
  intros Hall. unfold keywords. apply filter_none.
  intros k Hk. apply in_map_iff in Hk. destruct Hk as (piece & <- & Hp).
  rewrite trim_all_whitespace; [reflexivity|].
  apply (split_on_pieces
           (fun c => N.eqb c comma || N.eqb c fullwidth_comma) is_whitespace
           (countryFilter st)); [|exact Hp].
  exact Hall.
Qed.

Section BCGExtras.
Variables (data : list ProcessedData) (year : Z) (st : BCGState).

Lemma in_plotData (d : PlotRecord) :
  In d (plotData (useMemo data year st)) ->
  exists i x, top35 data year st !! i = Some x
    /\ d = plotRecord st (xRef (useMemo data year st)) 0%Qc i x.
Proof.
  unfold useMemo. destruct (top35 data year st) as [|d0 l] eqn:E.
  - intros [].
  - cbn [length Nat.eqb plotData xRef]. intros Hd.
    apply list_elem_of_In, elem_of_lookup_imap_1 in Hd.
    destruct Hd as (i & x & -> & Hx). exists i, x. auto.
Qed.

Lemma top35_positive (x : ProcessedData) :
  In x (top35 data year st) -> (0 < 市场份额 x)%Qc.
Proof.
  intros Hx. unfold top35 in Hx. apply In_firstn in Hx.
  apply (proj1 (sort_In byExportDesc _ _)) in Hx.
  apply in_filtered_by_country in Hx. tauto.
Qed.

(** X10.  The plotted growth is the growth clamped to the bounds of
    the control panel: it is never below [yMin]; when [yMin <= yMax] it
    is not above [yMax], it is the growth itself when that lies within
    the bounds, the bound when it lies outside, and it falls strictly
    inside the domain of the y axis. *)
Theorem yPlot_clamped (d : PlotRecord) (g : Qc) :
  In d (plotData (useMemo data year st)) ->
  同比增速 d = Some g ->
  (yMin st <= yPlot d)%Qc
  /\ ((yMin st <= yMax st)%Qc ->
      (yPlot d <= yMax st)%Qc
      /\ ((yMin st <= g)%Qc -> (g <= yMax st)%Qc -> yPlot d = g)
      /\ ((g < yMin st)%Qc -> yPlot d = yMin st)
      /\ ((yMax st < g)%Qc -> yPlot d = yMax st)
      /\ (fst (yDomain st) < yPlot d)%Qc
      /\ (yPlot d < snd (yDomain st))%Qc).
Proof.
  intros Hd Hg. destruct (in_plotData d Hd) as (i & x & _ & ->).
  simpl in Hg. simpl yPlot. rewrite Hg. simpl default.
  destruct (Qcmax_spec (yMin st) (Qcmin g (yMax st))) as (Hlo & Hhi & Hor).
  destruct (Qcmin_spec g (yMax st)) as (Hmg & Hmy & Hmor).
  split; [exact Hlo|]. intros Hbounds.
  assert (Hup : (Qcmax (yMin st) (Qcmin g (yMax st)) <= yMax st)%Qc).
  { destruct Hor as [-> | ->]; assumption. }
  split; [exact Hup|]. split; [|split; [|split; [|split]]].
  - intros H1 H2.
    assert (Hm : Qcmin g (yMax st) = g).
    { unfold Qcmin. now rewrite (proj2 (Qc_leb_le _ _) H2). }
    rewrite Hm. unfold Qcmax. now rewrite (proj2 (Qc_leb_le _ _) H1).
  - intros Hlt.
    assert (Hm : Qcmin g (yMax st) = g).
    { unfold Qcmin. rewrite (proj2 (Qc_leb_le g (yMax st))); [reflexivity|].
      apply Qclt_le_weak. now apply Qclt_le_trans with (yMin st). }
    rewrite Hm. unfold Qcmax. now rewrite (proj2 (Qc_leb_false _ _) Hlt).
  - intros Hgt.
    assert (Hm : Qcmin g (yMax st) = yMax st).
    { unfold Qcmin. now rewrite (proj2 (Qc_leb_false _ _) Hgt). }
    rewrite Hm. unfold Qcmax. now rewrite (proj2 (Qc_leb_le _ _) Hbounds).
  - unfold yDomain. simpl fst.
    apply Qclt_le_trans with (yMin st); [|exact Hlo].
    replace (yMin st) with (yMin st - Q2Qc (1 # 10) + Q2Qc (1 # 10))%Qc at 2 by ring.
    now apply Qc_lt_add_pos.
  - unfold yDomain. simpl snd.
    apply Qcle_lt_trans with (yMax st); [exact Hup|].
    now apply Qc_lt_add_pos.
Qed.

Lemma plot_shares :
  List.map (fun d : PlotRecord => 市场份额 d) (plotData (useMemo data year st))
  = List.map (fun x : ProcessedData => 市场份额 x) (top35 data year st).
Proof. now rewrite <- plotData_rows, List.map_map. Qed.

Lemma xRef_mean :
  top35 data year st <> [] ->
  xRef (useMemo data year st)
  = (fold_left (fun (sum : Qc) (d : ProcessedData) => sum + 市场份额 d)
               (top35 data year st) 0
     / Qc_of_Z (Z.of_nat (length (top35 data year st))))%Qc.
Proof.
  intros Hne. unfold useMemo.
  destruct (top35 data year st) as [|d0 l]; [congruence | reflexivity].
Qed.

(** X11.  When something is plotted, the domain of the x axis starts
    above zero, as its logarithmic scale needs, every plotted share
    lies strictly inside it, and so does the reference line of the mean
    share. *)
Theorem xDomain_contains_plot (lo hi : Qc) :
  xDomain (plotData (useMemo data year st)) = Some (lo, hi) ->
  (0 < lo)%Qc
  /\ (forall d : PlotRecord, In d (plotData (useMemo data year st)) ->
        (lo < 市场份额 d)%Qc /\ (市场份额 d < hi)%Qc)
  /\ (lo < xRef (useMemo data year st))%Qc
  /\ (xRef (useMemo data year st) < hi)%Qc.
Proof.
  unfold xDomain. rewrite plot_shares.
  destruct (top35 data year st) as [|x0 l] eqn:Etop; [discriminate|].
  cbn [List.map]. intros [= <- <-].
  set (s := 市场份额 x0). set (ss := List.map (fun x : ProcessedData => 市场份额 x) l).
  destruct (Math_min_spec s ss) as [Hmin_in Hmin].
  destruct (Math_max_spec s ss) as [Hmax_in Hmax].
  assert (Hpos : forall z, In z (s :: ss) -> (0 < z)%Qc).
  { intros z Hz. change (s :: ss)
      with (List.map (fun x : ProcessedData => 市场份额 x) (x0 :: l)) in Hz.
    apply in_map_iff in Hz. destruct Hz as (x & <- & Hx).
    apply top35_positive. now rewrite Etop. }
  assert (Hm0 : (0 < Math_min s ss)%Qc) by now apply Hpos.
  assert (HM0 : (0 < Math_max s ss)%Qc) by now apply Hpos.
  destruct (Qc_scale_down _ Hm0) as [Hlo0 Hlo].
  pose proof (Qc_scale_up _ HM0) as Hhi.
  assert (Hmem : forall x, In x (x0 :: l) ->
            (Math_min s ss <= 市场份额 x)%Qc /\ (市场份额 x <= Math_max s ss)%Qc).
  { intros x Hx.
    assert (Hz : In (市场份额 x) (s :: ss)).
    { change (s :: ss)
        with (List.map (fun x : ProcessedData => 市场份额 x) (x0 :: l)).
      apply in_map_iff. now exists x. }
    split; [now apply Hmin | now apply Hmax]. }
  assert (Hmean : (Math_min s ss <= xRef (useMemo data year st))%Qc
                  /\ (xRef (useMemo data year st) <= Math_max s ss)%Qc).
  { rewrite xRef_mean by (rewrite Etop; discriminate). rewrite Etop.
    apply (mean_bounds (fun x : ProcessedData => 市场份额 x));
      [discriminate | exact Hmem]. }
  split; [exact Hlo0|]. split; [|split].
  - intros d Hd. destruct (in_plotData d Hd) as (i & x & Hx & ->).
    simpl. rewrite Etop in Hx.
    assert (Hin : In x (x0 :: l))
      by (apply list_elem_of_In, list_elem_of_lookup; eauto).
    destruct (Hmem x Hin) as [H1 H2]. split.
    + now apply Qclt_le_trans with (Math_min s ss).
    + now apply Qcle_lt_trans with (Math_max s ss).
  - now apply Qclt_le_trans with (Math_min s ss).
  - now apply Qcle_lt_trans with (Math_max s ss).
Qed.

(** X13.  A country filter that holds only commas and white space has
    no keyword, and the view is the one without a country filter. *)
Theorem country_filter_without_keywords :
  forallb separator_or_space (countryFilter st) = true ->
  keywords st = []
  /\ filtered_by_country data year st = filtered_by_share data year st.
Proof.
  intros Hall. pose proof (keywords_none st Hall) as Hk.
  split; [exact Hk|]. unfold filtered_by_country. rewrite Hk. simpl.
  now destruct (non_empty (trim (countryFilter st))).
Qed.
End BCGExtras.

(** * The trend chart and the years on offer *)

(** ** A year and its text *)

Lemma read_digits_uint_acc (u : Decimal.uint) (acc : positive) :
  read_digits (Some (Z.pos acc)) (uint_digits u)
  = Some (Z.pos (Pos.of_uint_acc u acc)).
Proof.
  revert acc. induction u; intros acc; cbn [uint_digits read_digits Pos.of_uint_acc];
    [reflexivity|..];
    match goal with
    | |- context [digit_value ?c] =>
        let d := eval vm_compute in (digit_value c) in
        change (digit_value c) with d
    end;
    cbn [default]; unfold id; rewrite <- IHu; do 2 f_equal; lia.
Qed.

Lemma read_digits_uint_0 (u : Decimal.uint) :
  read_digits (Some 0) (uint_digits u) = Some (Z.of_N (Pos.of_uint u)).
Proof.
  induction u; cbn [uint_digits read_digits Pos.of_uint];
    [reflexivity|..];
    match goal with
    | |- context [digit_value ?c] =>
        let d := eval vm_compute in (digit_value c) in
        change (digit_value c) with d
    end;
    cbn [default]; unfold id;
    first [ exact IHu | apply read_digits_uint_acc ].
Qed.

Lemma read_digits_uint (u : Decimal.uint) :
  u <> Decimal.Nil ->
  read_digits None (uint_digits u) = Some (Z.of_N (Pos.of_uint u)).
Proof.
  destruct u; intros Hu; [congruence|..];
    cbn [uint_digits read_digits Pos.of_uint];
    match goal with
    | |- context [digit_value ?c] =>
        let d := eval vm_compute in (digit_value c) in
        change (digit_value c) with d
    end;
    cbn [default]; unfold id;
    first [ apply read_digits_uint_0 | apply read_digits_uint_acc ].
Qed.

Lemma parseInt_digits (u : Decimal.uint) :
  u <> Decimal.Nil -> parseInt (uint_digits u) = read_digits None (uint_digits u).
Proof. destruct u; intros Hu; [congruence|..]; reflexivity. Qed.

(** Reading back the text of an integer gives the integer. *)
Lemma parseInt_Z_toString (n : Z) : parseInt (Z_toString n) = Some n.
Proof.
  unfold Z_toString. destruct n as [|p|p]; cbn [Z.to_int].
  - reflexivity.
  - pose proof (Unsigned.to_uint_nonnil p) as Hu.
    rewrite (parseInt_digits _ Hu), (read_digits_uint _ Hu).
    now rewrite DecimalPos.Unsigned.of_to.
  - pose proof (Unsigned.to_uint_nonnil p) as Hu.
    change (parseInt (hyphen :: uint_digits (Pos.to_uint p)))
      with (Z.opp <$> read_digits None (uint_digits (Pos.to_uint p))).
    rewrite (read_digits_uint _ Hu), DecimalPos.Unsigned.of_to. reflexivity.
Qed.

Lemma Z_toString_inj (a b : Z) : Z_toString a = Z_toString b -> a = b.
Proof.
  intros E. apply (f_equal parseInt) in E.
  rewrite !parseInt_Z_toString in E. congruence.
Qed.

(** ** Sorting elements on which the comparator is consistent *)

Section SortOn.
Context {A : Type} (compareFn : A -> A -> Qc) (P : A -> Prop).
Hypothesis compare_total : forall a b, P a -> P b ->
  precedes compareFn a b \/ precedes compareFn b a.
Hypothesis compare_trans : forall a b c, P a -> P b -> P c ->
  precedes compareFn a b -> precedes compareFn b c -> precedes compareFn a c.

Lemma sort_insert_sorted_on (x : A) (l : list A) :
  P x -> (forall z, In z l -> P z) ->
  StronglySorted (precedes compareFn) l ->
  StronglySorted (precedes compareFn) (sort_insert compareFn x l).
Proof.
  intros Hx HP. induction 1 as [|y l Hl IH Hy]; simpl.
  - repeat constructor.
  - assert (HPy : P y) by (apply HP; now left).
    assert (HPl : forall z, In z l -> P z) by (intros z Hz; apply HP; now right).
    destruct (Qc_ltb 0 (compareFn x y)) eqn:E.
    + constructor; [now apply IH|].
      rewrite List.Forall_forall. intros z Hz.
      apply (Permutation_in _ (sort_insert_perm compareFn x l)) in Hz.
      destruct Hz as [<-|Hz].
      * destruct (compare_total y x HPy Hx) as [Hyx|Hxy]; [exact Hyx|].
        unfold precedes in Hxy. congruence.
      * rewrite List.Forall_forall in Hy. now apply Hy.
    + constructor; [now constructor|].
      constructor; [exact E|].
      rewrite List.Forall_forall in Hy |- *. intros z Hz.
      apply (compare_trans x y z); auto.
Qed.

Lemma sort_sorted_on (l : list A) :
  (forall z, In z l -> P z) ->
  StronglySorted (precedes compareFn) (sort compareFn l).
Proof.
  induction l as [|x l IH]; simpl; intros HP; [constructor|].
  apply sort_insert_sorted_on.
  - apply HP. now left.
  - intros z Hz. apply HP. right. now apply (sort_In compareFn l z).
  - apply IH. intros z Hz. apply HP. now right.
Qed.
End SortOn.

Lemma StronglySorted_strict {A B : Type} (R : A -> A -> Prop) (f : A -> B)
    (l : list A) :
  StronglySorted R l -> NoDup (List.map f l) ->
  StronglySorted (fun a b => R a b /\ f a <> f b) l.
Proof.
  induction 1 as [|x l Hl IH Hx]; simpl; intros Hnd; constructor.
  - apply IH. now apply NoDup_cons in Hnd.
  - apply NoDup_cons in Hnd. destruct Hnd as [Hnotin _].
    rewrite List.Forall_forall in Hx |- *. intros z Hz. split; [now apply Hx|].
    intros E. apply Hnotin. rewrite E. now apply list_elem_of_In, in_map.
Qed.

Lemma filter_partition_perm {A : Type} (p : A -> bool) (l : list A) :
  Permutation (List.filter p l ++ List.filter (fun x => negb (p x)) l) l.
Proof.
  induction l as [|a l IH]; simpl; [reflexivity|].
  destruct (p a); simpl.
  - now constructor.
  - rewrite <- Permutation_middle. now constructor.
Qed.

Lemma Object_entries_perm {V : Type} (o : list (jsstring * V)) :
  Permutation (Object_entries o) o.
Proof.
  unfold Object_entries. rewrite (sort_perm byIndex).
  apply filter_partition_perm.
Qed.

Lemma In_obj_get {V : Type} (o : list (jsstring * V)) k v :
  NoDup (List.map fst o) -> In (k, v) o -> obj_get o k = Some v.
Proof.
  induction o as [|[k' v'] o IH]; simpl; intros Hnd Hin; [contradiction|].
  apply NoDup_cons in Hnd. destruct Hnd as [Hk' Hnd].
  destruct (jsstring_eqb k' k) eqn:E.
  - apply jsstring_eqb_eq in E. subst k'.
    destruct Hin as [[= ->]|Hin]; [reflexivity|].
    exfalso. apply Hk'. apply list_elem_of_In.
    apply in_map_iff. now exists (k, v).
  - destruct Hin as [[= -> ->]|Hin]; [|now apply IH].
    apply not_true_iff_false in E. exfalso. apply E. now apply jsstring_eqb_eq.
Qed.

(** ** The totals per year *)

Lemma has_year_true (y : Z) (data : list ProcessedData) :
  has_year y data = true <-> exists r, In r data /\ 年份 r = y.
Proof.
  unfold has_year. rewrite existsb_exists. split.
  - intros (r & Hr & E). apply Z.eqb_eq in E. eauto.
  - intros (r & Hr & E). exists r. split; [exact Hr | now apply Z.eqb_eq].
Qed.

Lemma export_sum_absent (y : Z) (data : list ProcessedData) :
  has_year y data = false -> export_sum y (rows_of data) = 0%Qc.
Proof.
  intros Habs. unfold export_sum, rows_of. apply sum_where_none.
  intros a Ha. apply in_map_iff in Ha. destruct Ha as (r & <- & Hr).
  apply not_true_iff_false. intros E. apply not_true_iff_false in Habs.
  apply Habs, has_year_true. exists r. split; [exact Hr|].
  unfold in_year in E. now apply Z.eqb_eq.
Qed.

Lemma export_sum_snoc (y : Z) (data : list ProcessedData) (c : ProcessedData) :
  export_sum y (rows_of (data ++ [c]))
  = (export_sum y (rows_of data) + (if in_year y c then 出口额 c else 0))%Qc.
Proof.
  unfold export_sum, rows_of. rewrite List.map_app, sum_where_app. simpl.
  destruct (in_year y c); ring.
Qed.

Lemma yearTotals_snoc (data : list ProcessedData) (c : ProcessedData) :
  LineChart.yearTotals (data ++ [c])
  = LineChart.yearTotals_step (LineChart.yearTotals data) c.
Proof. unfold LineChart.yearTotals. now rewrite fold_left_app. Qed.

(** The object holds, under the text of a year, the sum of the export
    values of the records of that year. *)
Lemma yearTotals_get (data : list ProcessedData) (y : Z) :
  obj_get (LineChart.yearTotals data) (Z_toString y)
  = if has_year y data then Some (export_sum y (rows_of data)) else None.
Proof.
  induction data as [|c data IH] using rev_ind; [reflexivity|].
  rewrite yearTotals_snoc. unfold LineChart.yearTotals_step.
  rewrite export_sum_snoc. unfold has_year. rewrite existsb_app. simpl.
  fold (has_year y data). unfold in_year.
  destruct (Z.eqb_spec (年份 c) y) as [Hy|Hne].
  - rewrite Hy, obj_get_set_same, IH. simpl orb. rewrite orb_true_r. f_equal.
    destruct (has_year y data) eqn:Ep.
    + now rewrite num_or_Some_0.
    + now rewrite (export_sum_absent _ _ Ep).
  - rewrite obj_get_set_other by (intros E; now apply Hne, Z_toString_inj).
    rewrite IH. simpl orb. rewrite orb_false_r.
    destruct (has_year y data); [f_equal; ring | reflexivity].
Qed.

Lemma yearTotals_keys (data : list ProcessedData) :
  NoDup (List.map fst (LineChart.yearTotals data))
  /\ forall k, In k (List.map fst (LineChart.yearTotals data)) ->
       exists r, In r data /\ k = Z_toString (年份 r).
Proof.
  induction data as [|c data [IHnd IHk]] using rev_ind.
  - split; [constructor | intros k []].
  - rewrite yearTotals_snoc. unfold LineChart.yearTotals_step.
    destruct (obj_get (LineChart.yearTotals data) (Z_toString (年份 c)))
      as [v|] eqn:Hg.
    + rewrite (obj_set_keys _ _ _ _ Hg). split; [exact IHnd|].
      intros k Hk. destruct (IHk k Hk) as (r & Hr & ->).
      exists r. split; [apply in_or_app; now left | reflexivity].
    + rewrite (obj_set_new _ _ _ Hg), List.map_app. simpl. split.
      * apply NoDup_app. split; [exact IHnd|]. split.
        -- intros x Hx Hx'. apply list_elem_of_In in Hx.
           apply list_elem_of_In in Hx'. destruct Hx' as [<-|[]].
           now apply (obj_get_None _ _ Hg).
        -- repeat constructor. intros Hin. now apply list_elem_of_In in Hin.
      * intros k Hk. apply in_app_or in Hk. destruct Hk as [Hk|[<-|[]]].
        -- destruct (IHk k Hk) as (r & Hr & ->).
           exists r. split; [apply in_or_app; now left | reflexivity].
        -- exists c. split; [apply in_or_app; right; now left | reflexivity].
Qed.

Lemma yearTotals_entries (data : list ProcessedData) (k : jsstring) (v : Qc) :
  In (k, v) (LineChart.yearTotals data) <->
  exists y, k = Z_toString y /\ has_year y data = true
    /\ v = export_sum y (rows_of data).
Proof.
  destruct (yearTotals_keys data) as [Hnd Hkeys]. split.
  - intros Hin.
    destruct (Hkeys k) as (r & Hr & ->);
      [apply in_map_iff; now exists (k, v)|].
    apply (In_obj_get _ _ _ Hnd) in Hin. rewrite yearTotals_get in Hin.
    exists (年份 r). destruct (has_year (年份 r) data); [|discriminate].
    injection Hin as <-. auto.
  - intros (y & -> & Hy & ->). apply obj_get_In.
    now rewrite yearTotals_get, Hy.
Qed.

Lemma LineChart_plotData_perm (data : list ProcessedData) :
  Permutation (LineChart.plotData data)
    (List.map (fun entry : jsstring * Qc =>
                 {| TrendPoint.年份 := parseInt (fst entry);
                    TrendPoint.总出口额 := snd entry |})
              (LineChart.yearTotals data)).
Proof.
  unfold LineChart.plotData. rewrite (sort_perm LineChart.byYear).
  apply Permutation_map, Object_entries_perm.
Qed.

Lemma in_LineChart_plotData (data : list ProcessedData) (p : TrendPoint.t) :
  In p (LineChart.plotData data) <->
  exists y, has_year y data = true
    /\ p = trendPoint y (export_sum y (rows_of data)).
Proof.
  split.
  - intros Hp. apply (Permutation_in _ (LineChart_plotData_perm data)) in Hp.
    apply in_map_iff in Hp. destruct Hp as ([k v] & <- & Hkv).
    apply yearTotals_entries in Hkv. destruct Hkv as (y & -> & Hy & ->).
    exists y. split; [exact Hy|]. simpl. now rewrite parseInt_Z_toString.
  - intros (y & Hy & ->).
    apply (Permutation_in _ (Permutation_sym (LineChart_plotData_perm data))).
    apply in_map_iff. exists (Z_toString y, export_sum y (rows_of data)).
    split; [simpl; now rewrite parseInt_Z_toString|].
    apply yearTotals_entries. eauto.
Qed.

Lemma LineChart_years_NoDup (data : list ProcessedData) :
  NoDup (List.map TrendPoint.年份 (LineChart.plotData data)).
Proof.
  rewrite (Permutation_map _ (LineChart_plotData_perm data)).
  rewrite List.map_map. simpl.
  destruct (yearTotals_keys data) as [Hnd Hkeys].
  revert Hnd Hkeys. generalize (LineChart.yearTotals data). intros o.
  induction o as [|[k v] o IH]; simpl; intros Hnd Hkeys; [constructor|].
  apply NoDup_cons in Hnd. destruct Hnd as [Hk Hnd].
  apply NoDup_cons. split; [|apply IH; auto].
  intros Hin. apply Hk. apply list_elem_of_In in Hin. apply list_elem_of_In.
  apply in_map_iff in Hin. destruct Hin as ([k' v'] & E & Hin'). simpl in E.
  destruct (Hkeys k) as (r & _ & ->); [now left|].
  destruct (Hkeys k') as (r' & _ & ->);
    [right; apply in_map_iff; now exists (k', v')|].
  rewrite !parseInt_Z_toString in E. injection E as E.
  apply in_map_iff. exists (Z_toString (年份 r'), v'). simpl.
  split; [now rewrite E | exact Hin'].
Qed.

(** X14.  The points of the trend chart are in strictly ascending
    order of year: every year is a number and occurs once. *)
Theorem LineChart_years_ascending (data : list ProcessedData) :
  StronglySorted earlier_year (LineChart.plotData data).
Proof.
  assert (Hsome : forall p, In p (LineChart.plotData data) ->
            exists y, TrendPoint.年份 p = Some y).
  { intros p Hp. apply in_LineChart_plotData in Hp.
    destruct Hp as (y & _ & ->). now exists y. }
  assert (Hsorted : StronglySorted (precedes LineChart.byYear)
                      (LineChart.plotData data)).
  { unfold LineChart.plotData.
    apply (sort_sorted_on LineChart.byYear
             (fun p => exists y, TrendPoint.年份 p = Some y)).
    - intros a b [x Ha] [y Hb]. unfold precedes, LineChart.byYear.
      rewrite Ha, Hb, !Qc_ltb_ge.
      destruct (Z.le_ge_cases x y) as [Hle|Hge]; [left | right];
        apply Qcnot_lt_le; rewrite Qc_of_Z_pos; lia.
    - intros a b c [x Ha] [y Hb] [z Hc]. unfold precedes, LineChart.byYear.
      rewrite Ha, Hb, Hc, !Qc_ltb_ge. intros H1 H2.
      apply Qcle_not_lt in H1, H2. rewrite Qc_of_Z_pos in H1, H2.
      apply Qcnot_lt_le. rewrite Qc_of_Z_pos. lia.
    - intros p Hp. apply Hsome. now apply (sort_In LineChart.byYear). }
  pose proof (StronglySorted_strict _ TrendPoint.年份 _ Hsorted
                (LineChart_years_NoDup data)) as Hstrict.
  assert (Hgen : forall l, (forall p, In p l -> exists y, TrendPoint.年份 p = Some y) ->
            StronglySorted (fun a b => precedes LineChart.byYear a b
                                       /\ TrendPoint.年份 a <> TrendPoint.年份 b) l ->
            StronglySorted earlier_year l).
  { induction l as [|a l IH]; intros Hl Hs; [constructor|].
    apply StronglySorted_inv in Hs. destruct Hs as [Hs Ha].
    constructor; [apply IH; auto; intros p Hp; apply Hl; now right|].
    rewrite List.Forall_forall in Ha |- *. intros b Hb.
    destruct (Ha b Hb) as [Hle Hne].
    destruct (Hl a) as [x Hx]; [now left|].
    destruct (Hl b) as [y Hy]; [now right|].
    exists x, y. split; [exact Hx|]. split; [exact Hy|].
    unfold precedes, LineChart.byYear in Hle. rewrite Hx, Hy, Qc_ltb_ge in Hle.
    apply Qcle_not_lt in Hle. rewrite Qc_of_Z_pos in Hle.
    assert (x <> y) by congruence. lia. }
  now apply Hgen.
Qed.

(** X15.  The trend chart has a point for exactly the years that occur
    in its data, and the total of the point is the sum of the export
    values of the records of that year; it has no point when the data
    is empty. *)
Theorem LineChart_points (data : list ProcessedData) (p : TrendPoint.t) :
  In p (LineChart.plotData data) <->
  exists y, (exists r, In r data /\ 年份 r = y)
    /\ p = trendPoint y (export_sum y (rows_of data)).
Proof.
  rewrite in_LineChart_plotData. split.
  - intros (y & Hy & ->). apply has_year_true in Hy. eauto.
  - intros (y & Hy & ->). apply has_year_true in Hy. eauto.
Qed.

Section TrendOfRawData.
Context `{Builtins}.

(** X16.  Fed with the output of [processData], the trend chart has a
    point for exactly the years read from the raw records, and its
    total is the sum of the coerced export values of the raw records of
    that year.  The sums are those of exact arithmetic; in binary64 a
    sum depends on the order in which its terms are added. *)
Theorem LineChart_of_processData (rawData : list RawData.t) (p : TrendPoint.t) :
  In p (LineChart.plotData (processData rawData)) <->
  exists y, (exists row, In row rawData /\ year_of row = Some y)
    /\ p = trendPoint y (raw_sum y rawData).
Proof.
  assert (Hsum : forall y, export_sum y (rows_of (processData rawData))
                           = raw_sum y rawData).
  { intros y. unfold export_sum.
    rewrite (sum_where_perm _ _ _ _ (rows_of_processData rawData)).
    fold (export_sum y (aggregatedArray rawData)). unfold aggregatedArray.
    now rewrite aggregated_sum, cleanedData_sum. }
  rewrite in_LineChart_plotData. split.
  - intros (y & Hy & ->). apply has_year_true in Hy. destruct Hy as (r & Hr & <-).
    destruct (aggregatedArray_origin _ _ (in_processData_row _ _ Hr))
      as (row & Hrow & Hy & _).
    exists (年份 r). rewrite Hsum. eauto.
  - intros (y & (row & Hrow & Hy) & ->). exists y. rewrite Hsum.
    split; [|reflexivity]. apply has_year_true.
    exists (metric_of rawData y (partner_of row)).
    split; [now apply metric_of_in_processData | reflexivity].
Qed.
End TrendOfRawData.

(** ** The years on offer and the year selected after an upload *)

Lemma existsb_Z_eqb (x : Z) (s : list Z) :
  existsb (Z.eqb x) s = true <-> In x s.
Proof.
  rewrite existsb_exists. split.
  - intros (z & Hz & E). apply Z.eqb_eq in E. now subst.
  - intros Hx. exists x. split; [exact Hx | apply Z.eqb_refl].
Qed.

Lemma fold_Set_values (xs acc : list Z) :
  NoDup acc ->
  NoDup (fold_left (fun s x => if existsb (Z.eqb x) s then s else s ++ [x]) xs acc)
  /\ forall x,
       In x (fold_left (fun s x => if existsb (Z.eqb x) s then s else s ++ [x]) xs acc)
       <-> In x acc \/ In x xs.
Proof.
  revert acc. induction xs as [|a xs IH]; simpl; intros acc Hnd.
  - split; [exact Hnd | tauto].
  - destruct (existsb (Z.eqb a) acc) eqn:E.
    + apply existsb_Z_eqb in E. destruct (IH acc Hnd) as [H1 H2].
      split; [exact H1|]. intros x. rewrite H2.
      split; [tauto | intros [Hx|[<-|Hx]]; auto].
    + assert (Hnot : ~ In a acc)
        by (intros Hin; apply existsb_Z_eqb in Hin; congruence).
      assert (Hnd' : NoDup (acc ++ [a])).
      { apply NoDup_app. split; [exact Hnd|]. split.
        - intros x Hx Hx'. apply list_elem_of_In in Hx.
          apply list_elem_of_In in Hx'. destruct Hx' as [<-|[]]. contradiction.
        - repeat constructor. intros Hin. now apply list_elem_of_In in Hin. }
      destruct (IH _ Hnd') as [H1 H2]. split; [exact H1|].
      intros x. rewrite H2, in_app_iff. simpl. tauto.
Qed.

Lemma Set_values_spec (xs : list Z) :
  NoDup (App.Set_values xs) /\ forall x, In x (App.Set_values xs) <-> In x xs.
Proof.
  unfold App.Set_values. destruct (fold_Set_values xs [] NoDup_nil_2) as [H1 H2].
  split; [exact H1|]. intros x. rewrite H2. simpl. tauto.
Qed.

Lemma precedes_byNumber (a b : Z) : precedes App.byNumber a b <-> a <= b.
Proof.
  unfold precedes, App.byNumber. rewrite Qc_ltb_ge. split.
  - intros Hle. apply Qcle_not_lt in Hle. rewrite Qc_of_Z_pos in Hle. lia.
  - intros Hle. apply Qcnot_lt_le. rewrite Qc_of_Z_pos. lia.
Qed.

Lemma in_years_of (processed : list ProcessedData) (y : Z) :
  In y (App.years_of processed) <-> exists r, In r processed /\ 年份 r = y.
Proof.
  unfold App.years_of. rewrite (sort_In App.byNumber).
  rewrite (proj2 (Set_values_spec _)), in_map_iff.
  split; intros (r & H1 & H2); exists r; auto.
Qed.

Lemma years_of_ascending (processed : list ProcessedData) :
  StronglySorted Z.lt (App.years_of processed).
Proof.
  assert (Hsorted : StronglySorted Z.le (App.years_of processed)).
  { unfold App.years_of. apply sorted_by_precedes.
    - apply precedes_byNumber.
    - intros a b. lia.
    - intros a b c. lia. }
  assert (Hnd : NoDup (List.map (fun y : Z => y) (App.years_of processed))).
  { rewrite List.map_id. unfold App.years_of.
    rewrite (sort_perm App.byNumber). apply Set_values_spec. }
  apply (StronglySorted_weaken (fun a b : Z => a <= b /\ a <> b));
    [intros a b; lia|].
  now apply (StronglySorted_strict Z.le (fun y : Z => y)).
Qed.

Lemma StronglySorted_last {A : Type} (R : A -> A -> Prop) (l : list A) (m : A) :
  StronglySorted R l -> last l = Some m ->
  In m l /\ forall x, In x l -> x = m \/ R x m.
Proof.
  intros Hs Hlast. apply last_Some in Hlast. destruct Hlast as [l' ->].
  split; [apply in_or_app; right; now left|].
  intros x Hx. apply in_app_or in Hx. destruct Hx as [Hx|[<-|[]]]; [|now left].
  right. apply (StronglySorted_app_cross R l' [m] Hs); [exact Hx | now left].
Qed.

(** X17.  The years offered by the year selector are in strictly
    ascending order, without repetition, and they are exactly the years
    of the processed records. *)
Theorem availableYears_spec (processedData : list ProcessedData) :
  StronglySorted Z.lt (App.availableYears processedData)
  /\ forall y, In y (App.availableYears processedData)
               <-> exists r, In r processedData /\ 年份 r = y.
Proof.
  unfold App.availableYears. destruct processedData as [|r0 l].
  - simpl. split; [constructor|]. intros y. split; [intros [] | intros (r & [] & _)].
  - cbn [length Nat.eqb]. split; [apply years_of_ascending | apply in_years_of].
Qed.

Section Upload.
Context `{Builtins}.

(** X18.  An upload that parses replaces the raw and the processed
    data by those of the new file and clears the error.  When the new
    file yields records, the selected year becomes the latest year of
    the processed data, which is one of the years on offer; when it
    yields none, the year selected before stays selected. *)
Theorem upload_selects_latest_year (st : App.State) (parsed : list RawData.t) :
  App.rawData (App.handleFileUpload st (App.Resolved parsed)) = parsed
  /\ App.processedData (App.handleFileUpload st (App.Resolved parsed))
     = processData parsed
  /\ App.error (App.handleFileUpload st (App.Resolved parsed)) = None
  /\ (processData parsed = [] ->
      App.selectedYear (App.handleFileUpload st (App.Resolved parsed))
      = App.selectedYear st)
  /\ (processData parsed <> [] ->
      exists latest,
        App.selectedYear (App.handleFileUpload st (App.Resolved parsed))
        = Some latest
        /\ In latest (App.availableYears (processData parsed))
        /\ (exists r, In r (processData parsed) /\ 年份 r = latest)
        /\ forall r, In r (processData parsed) -> 年份 r <= latest).
Proof.
  split; [reflexivity|]. split; [reflexivity|]. split; [reflexivity|].
  cbn [App.handleFileUpload App.selectedYear]. split.
  - intros ->. reflexivity.
  - intros Hne.
    destruct (last (App.years_of (processData parsed))) as [latest|] eqn:Hlast.
    + destruct (StronglySorted_last _ _ _ (years_of_ascending _) Hlast)
        as [Hin Hmax].
      exists latest. split; [reflexivity|]. split; [|split].
      * unfold App.availableYears.
        destruct (processData parsed); [congruence | exact Hin].
      * now apply in_years_of.
      * intros r Hr.
        destruct (Hmax (年份 r)) as [E|Hlt]; [apply in_years_of; eauto | lia | lia].
    + exfalso. destruct (processData parsed) as [|r0 l] eqn:E; [congruence|].
      assert (Hin : In (年份 r0) (App.years_of (r0 :: l)))
        by (apply in_years_of; exists r0; split; [now left | reflexivity]).
      destruct (App.years_of (r0 :: l)) as [|y ys] eqn:Ey; [destruct Hin|].
      assert (Hsome : is_Some (last (y :: ys))).
      { clear. revert y. induction ys as [|z ys IH]; intros y; [now exists y|].
        apply (IH z). }
      rewrite Hlast in Hsome. now destruct Hsome.
Qed.
End Upload.

(** * The cleaning step, on the characters and values it reads *)

Section CleaningClaims.
Context `{Builtins}.

(** C5.  The year of a raw record is [parseInt] of the first four
    characters of the stringified period.  When that is a number, the
    output has a record of that year for the partner of the record;
    when it is [NaN], the record is dropped by the cleaning step
    without any error and the result of [processData] is the result
    for the input without the record, so that it contributes to no
    aggregate, total or growth.  Every year of the output is read in
    this way from some record of the input. *)
Theorem year_of_first_four_characters (before after : list RawData.t) (row : RawData.t) :
  match parseInt (firstn 4 (match RawData.数据年月 row with
                            | PeriodText s => s
                            | PeriodNumber x => Number_toString x
                            end)) with
  | Some y =>
      exists r, In r (processData (before ++ row :: after))
        /\ 年份 r = y /\ 贸易伙伴名称 r = partner_of row
  | None =>
      cleanRow row = None
      /\ processData (before ++ row :: after) = processData (before ++ after)
  end
  /\ (forall r : ProcessedData, In r (processData (before ++ row :: after)) ->
        exists row', In row' (before ++ row :: after)
          /\ parseInt (firstn 4 (match RawData.数据年月 row' with
                                 | PeriodText s => s
                                 | PeriodNumber x => Number_toString x
                                 end)) = Some (年份 r)).
Proof.
  split.
  - destruct (parseInt _) as [y|] eqn:Hy.
    + assert (Hin : In row (before ++ row :: after))
        by (apply in_or_app; right; now left).
      destruct (in_cleanedData _ row y Hin Hy) as (c & Hc & Hcy & Hcn & _).
      destruct (aggregated_covers _ c Hc) as (a & Ha & Hay & Han).
      destruct (processData_of_row _ a Ha) as (r & Hr & Hra).
      exists r. split; [exact Hr|]. rewrite Hra. split; congruence.
    + assert (Hclean : cleanRow row = None)
        by (change (year_of row = None) in Hy; unfold cleanRow; now rewrite Hy).
      split; [exact Hclean|].
      unfold processData, aggregatedArray.
      rewrite !cleanedData_app, cleanedData_cons, Hclean. reflexivity.
  - intros r Hr. apply in_processData_row in Hr.
    destruct (aggregatedArray_origin _ _ Hr) as (row' & Hrow' & Hy & _).
    exists row'. split; [exact Hrow' | exact Hy].
Qed.

(** C6.  A textual export value is parsed by [parseFloat] after its
    commas (code unit 44) are removed; a missing or unparseable one
    counts as 0 and a numeric one is used as it is.  Whatever the
    export value, a record whose year parses is kept: the output has a
    record for its year and partner, and on its own the record yields
    one output record, whose export value is the value so coerced. *)
Theorem export_value_coercion (rawData : list RawData.t) (row : RawData.t) (y : Z) :
  In row rawData -> year_of row = Some y ->
  (exists r, In r (processData rawData)
     /\ 年份 r = y /\ 贸易伙伴名称 r = partner_of row)
  /\ (exists r, processData [row] = [r]
        /\ 年份 r = y /\ 贸易伙伴名称 r = partner_of row
        /\ 出口额 r
           = match RawData.人民币 row with
             | AmountMissing => 0%Qc
             | AmountText s =>
                 match parseFloat
                         (List.filter (fun c => negb (N.eqb c 44)) s) with
                 | Some x => x
                 | None => 0%Qc
                 end
             | AmountNumber x => x
             end).
Proof.
  intros Hin Hy. split.
  - destruct (in_cleanedData rawData row y Hin Hy) as (c & Hc & Hcy & Hcn & _).
    destruct (aggregated_covers _ c Hc) as (a & Ha & Hay & Han).
    destruct (processData_of_row rawData a Ha) as (r & Hr & Hra).
    exists r. split; [exact Hr|]. rewrite Hra. split; congruence.
  - unfold processData, aggregatedArray.
    rewrite cleanedData_cons. unfold cleanRow. rewrite Hy. simpl.
    eexists. split; [reflexivity|]. simpl.
    split; [reflexivity|]. split; [reflexivity|].
    rewrite Qcplus_0_l.
    destruct (RawData.人民币 row) as [|s|x]; simpl; [reflexivity| |].
    + unfold remove_commas, comma.
      destruct (parseFloat _) as [x|]; [|reflexivity].
      apply num_or_Some_0.
    + apply num_or_Some_0.
Qed.
End CleaningClaims.

(** * The selection of the BCG matrix *)

Section BCGSelection.
Variables (data : list ProcessedData) (year : Z) (st : BCGState).

Lemma non_empty_true (s : jsstring) : non_empty s = true <-> s <> [].
Proof. destruct s; simpl; split; congruence. Qed.

Lemma keywords_spelled :
  List.filter (fun k : jsstring => match k with [] => false | _ => true end)
    (List.map trim
       (split_on (fun c => N.eqb c 44 || N.eqb c 65292) (countryFilter st)))
  = keywords st.
Proof. reflexivity. Qed.

Lemma filtered_by_country_selected (d : ProcessedData) :
  In d (filtered_by_country data year st) -> bcg_selected year st d.
Proof.
  intros Hd.
  destruct (in_filtered_by_country data year st d Hd)
    as (_ & Hy & Hg & Hpos & Hmin & Hmax).
  unfold bcg_selected. split; [exact Hy|]. split; [exact Hg|].
  split; [exact Hpos|]. split; [now split|].
  rewrite keywords_spelled. intros Hcf Hk.
  unfold filtered_by_country in Hd.
  rewrite (proj2 (non_empty_true _) Hcf) in Hd.
  destruct (keywords st) as [|k ks] eqn:Ek; [congruence|].
  cbn [length Nat.ltb Nat.leb] in Hd.
  apply List.filter_In in Hd. destruct Hd as [_ Hd].
  apply List.existsb_exists in Hd. exact Hd.
Qed.

Lemma filtered_by_year_dropped (d : ProcessedData) :
  In d (List.filter (fun d : ProcessedData =>
          negb (Z.eqb (年份 d) year
                && bool_decide (is_Some (同比增速 d))
                && Qc_ltb 0 (市场份额 d))) data) ->
  ~ bcg_selected year st d.
Proof.
  intros Hd (Hy & Hg & Hpos & _).
  apply List.filter_In in Hd. destruct Hd as [_ Hd].
  apply negb_true_iff in Hd.
  rewrite (proj2 (Z.eqb_eq _ _) Hy) in Hd.
  rewrite (proj2 (Qc_ltb_lt _ _) Hpos) in Hd.
  rewrite bool_decide_eq_true_2 in Hd; [discriminate|].
  destruct (同比增速 d); [eauto | congruence].
Qed.

Lemma filtered_by_share_dropped (d : ProcessedData) :
  In d (List.filter (fun d : ProcessedData =>
          negb (Qc_leb (minShare st) (市场份额 d * Qc_of_Z 100)
                && Qc_leb (市场份额 d * Qc_of_Z 100) (maxShare st)))
          (filtered_by_year data year)) ->
  ~ bcg_selected year st d.
Proof.
  intros Hd (_ & _ & _ & [Hmin Hmax] & _).
  apply List.filter_In in Hd. destruct Hd as [_ Hd].
  apply negb_true_iff in Hd.
  rewrite (proj2 (Qc_leb_le _ _) Hmin), (proj2 (Qc_leb_le _ _) Hmax) in Hd.
  discriminate.
Qed.

Lemma filtered_by_country_partition :
  exists dropped,
    Permutation (filtered_by_share data year st)
      (filtered_by_country data year st ++ dropped)
    /\ forall d, In d dropped -> ~ bcg_selected year st d.
Proof.
  unfold filtered_by_country.
  destruct (non_empty (trim (countryFilter st))) eqn:Ecf;
    [|exists []; rewrite app_nil_r; split; [reflexivity | contradiction]].
  destruct (keywords st) as [|k ks] eqn:Ek;
    [exists []; rewrite app_nil_r; split; [reflexivity | contradiction]|].
  cbn [length Nat.ltb Nat.leb].
  eexists. split; [symmetry; apply filter_partition_perm|].
  intros d Hd (_ & _ & _ & _ & Hkw).
  rewrite keywords_spelled, Ek in Hkw.
  apply List.filter_In in Hd. destruct Hd as [_ Hd].
  apply negb_true_iff in Hd.
  destruct Hkw as (k' & Hk' & Hinc).
  - now apply non_empty_true.
  - discriminate.
  - assert (Hex : existsb (fun k0 => includes (贸易伙伴名称 d) k0) (k :: ks) = true)
      by (apply List.existsb_exists; eauto).
    congruence.
Qed.

(** C9.  The records of [data] split into the plotted ones, a
    remainder and the others: the plotted ones and the remainder are
    exactly the records that pass the five filters (the selected year,
    a growth that is not null, a positive share, a share within the
    range of the controls, a partner name that includes a keyword of
    the country filter when it has one); the plotted ones are the
    first 35 of them, or all of them when they are fewer, in
    descending order of export value, and no record of the remainder
    has a larger export value than a plotted one; a plotted record
    carries its partner name as label when it is among the first 20
    and the empty label otherwise. *)
Theorem bcg_top35_and_labels :
  exists rest others : list ProcessedData,
    Permutation data
      (List.map plot_row (plotData (useMemo data year st)) ++ rest ++ others)
    /\ (forall d,
          In d (List.map plot_row (plotData (useMemo data year st)) ++ rest) ->
          bcg_selected year st d)
    /\ (forall d, In d others -> ~ bcg_selected year st d)
    /\ length (plotData (useMemo data year st))
       = Nat.min 35 (length (plotData (useMemo data year st)) + length rest)
    /\ StronglySorted export_desc
         (List.map plot_row (plotData (useMemo data year st)))
    /\ (forall a b,
          In a (List.map plot_row (plotData (useMemo data year st))) ->
          In b rest -> export_desc a b)
    /\ (forall (i : nat) (d : PlotRecord),
          plotData (useMemo data year st) !! i = Some d ->
          (i < 35)%nat
          /\ label d = if (i <? 20)%nat then 贸易伙伴名称 d else []).
Proof.
  pose proof (sorted_filtered data year st) as Hsorted.
  pose proof (firstn_skipn 35
    (sort byExportDesc (filtered_by_country data year st))) as Hcut.
  fold (top35 data year st) in Hcut. rewrite <- Hcut in Hsorted.
  destruct filtered_by_country_partition as (dropped & Hperm3 & Hdropped).
  assert (Hlen : (length (plotData (useMemo data year st)) <= 35)%nat).
  { rewrite <- (List.length_map plot_row), plotData_rows.
    unfold top35. apply firstn_le_length. }
  pose (others1 := List.filter (fun d : ProcessedData =>
          negb (Z.eqb (年份 d) year
                && bool_decide (is_Some (同比增速 d))
                && Qc_ltb 0 (市场份额 d))) data).
  pose (others2 := List.filter (fun d : ProcessedData =>
          negb (Qc_leb (minShare st) (市场份额 d * Qc_of_Z 100)
                && Qc_leb (市场份额 d * Qc_of_Z 100) (maxShare st)))
          (filtered_by_year data year)).
  assert (Hperm1 : Permutation data (filtered_by_year data year ++ others1))
    by (symmetry; apply filter_partition_perm).
  assert (Hperm2 : Permutation (filtered_by_year data year)
                     (filtered_by_share data year st ++ others2))
    by (symmetry; apply (filter_partition_perm _ (filtered_by_year data year))).
  exists (skipn 35 (sort byExportDesc (filtered_by_country data year st))).
  exists (dropped ++ others2 ++ others1).
  rewrite plotData_rows.
  split; [|split; [|split; [|split; [|split; [|split]]]]].
  - apply Permutation_trans with (1 := Hperm1).
    rewrite (app_assoc (top35 data year st)), Hcut.
    rewrite (sort_perm byExportDesc (filtered_by_country data year st)).
    rewrite app_assoc, <- Hperm3, app_assoc, <- Hperm2. reflexivity.
  - intros d Hd. rewrite Hcut in Hd.
    apply filtered_by_country_selected.
    exact (proj1 (sort_In byExportDesc _ d) Hd).
  - intros d Hd. apply in_app_or in Hd. destruct Hd as [Hd|Hd];
      [now apply Hdropped|].
    apply in_app_or in Hd. destruct Hd as [Hd|Hd];
      [now apply filtered_by_share_dropped | now apply filtered_by_year_dropped].
  - rewrite <- (List.length_map plot_row (plotData (useMemo data year st))),
      plotData_rows, <- List.length_app, Hcut.
    unfold top35. apply List.length_firstn.
  - exact (StronglySorted_app_l _ _ _ Hsorted).
  - exact (StronglySorted_app_cross _ _ _ Hsorted).
  - intros i d Hi. split; [|now apply (plotData_lookup data year st)].
    apply lookup_lt_Some in Hi. lia.
Qed.
End BCGSelection.

(** * Examples on exact decimals *)

Import Exact.

(** Equality of concrete values with rational components: the
    components are compared as fractions. *)
Ltac concrete_eq :=
  vm_compute;
  repeat match goal with
    | |- @eq Qc _ _ => apply Qc_is_canon; vm_compute; reflexivity
    | |- _ => reflexivity
    | |- _ => f_equal
    end.

Example parseInt_invalid : parseInt (substring0 4 (js "invalid")) = None.
Proof. reflexivity. Qed.

Example parseInt_lenient :
  parseInt (substring0 4 (js "202301")) = Some 2023
  /\ parseInt (substring0 4 (js " 12ab")) = Some 12
  /\ parseInt (substring0 4 (js "-7.5")) = Some (-7).
Proof. repeat split. Qed.

Example parseFloat_thousands :
  rmb_of (AmountText (js "1,000")) = Qc_of_Z 1000
  /\ rmb_of (AmountText (js "n/a")) = 0%Qc
  /\ rmb_of AmountMissing = 0%Qc.
Proof. repeat split; concrete_eq. Qed.

Example scenario_result :
  processData scenario = [result_2022_A; result_2023_A; result_2023_B].
Proof. concrete_eq. Qed.

Example offsetting_result :
  processData offsetting = [offsetting_A; offsetting_B].
Proof. concrete_eq. Qed.

(** In the scenario the shares of 2023 are 2/3 and 1/3. *)
Lemma share_sum_one_witness :
  globalTotal (aggregatedArray scenario) !! 2023 = Some (Qc_of_Z 1500)
  /\ Qc_of_Z 1500 <> 0%Qc
  /\ share_sum 2023 (processData scenario) = 1%Qc.
Proof.
  assert (Ht : globalTotal (aggregatedArray scenario) !! 2023 = Some (Qc_of_Z 1500))
    by concrete_eq.
  assert (Hnz : Qc_of_Z 1500 <> 0%Qc) by (vm_compute; discriminate).
  split; [exact Ht|]. split; [exact Hnz|].
  exact (share_sum_one scenario 2023 (Qc_of_Z 1500) Ht Hnz).
Defined.

(** In the scenario A grew from 800 to 1000 and B has no record of
    2022. *)
Lemma growth_from_previous_year_witness :
  In result_2023_A (processData scenario)
  /\ 同比增速 result_2023_A
     = Some ((Qc_of_Z 1000 - Qc_of_Z 800) / Qcabs (Qc_of_Z 800))%Qc.
Proof.
  assert (Hin : In result_2023_A (processData scenario))
    by (rewrite scenario_result; simpl; auto).
  split; [exact Hin|].
  apply (proj1 (growth_from_previous_year scenario result_2023_A Hin)
           {| 年份 := 2022; 贸易伙伴名称 := js "A"; 出口额 := Qc_of_Z 800 |}).
  - vm_compute. right. right. left. concrete_eq.
  - reflexivity.
  - reflexivity.
  - vm_compute. discriminate.
Defined.

(** The record with period "invalid" changes nothing, and the record
    of A with the numeric period 202301 gives a record of 2023. *)
Lemma year_of_first_four_characters_witness :
  processData ([scenario_2023_A; scenario_2023_B] ++ invalid_row :: [scenario_2022_A])
  = processData scenario
  /\ exists r,
       In r (processData ([] ++ scenario_2023_A :: [scenario_2023_B; scenario_2022_A]))
       /\ 年份 r = 2023 /\ 贸易伙伴名称 r = js "A".
Proof.
  split.
  - pose proof (proj1 (year_of_first_four_characters
        [scenario_2023_A; scenario_2023_B] [scenario_2022_A] invalid_row)) as Hdrop.
    exact (proj2 Hdrop).
  - pose proof (proj1 (year_of_first_four_characters
        [] [scenario_2023_B; scenario_2022_A] scenario_2023_A)) as Hkept.
    exact Hkept.
Defined.

(** The record of A in 2023, whose export value is the text "1,000",
    counts 1000; a record whose export value is the text "n/a" is kept
    and counts 0. *)
Lemma export_value_coercion_witness :
  In scenario_2023_A scenario
  /\ year_of scenario_2023_A = Some 2023
  /\ (exists r, processData [scenario_2023_A] = [r]
        /\ 年份 r = 2023 /\ 贸易伙伴名称 r = js "A"
        /\ 出口额 r = Qc_of_Z 1000)
  /\ (exists r, processData [unparseable_amount] = [r]
        /\ 年份 r = 2023 /\ 贸易伙伴名称 r = 未知
        /\ 出口额 r = 0%Qc).
Proof.
  assert (Hin : In scenario_2023_A scenario) by (simpl; auto).
  assert (Hy : year_of scenario_2023_A = Some 2023) by reflexivity.
  split; [exact Hin|]. split; [exact Hy|]. split.
  - destruct (proj2 (export_value_coercion scenario scenario_2023_A 2023 Hin Hy))
      as (r & Hr & Hry & Hrn & Hre).
    exists r. split; [exact Hr|]. split; [exact Hry|]. split; [exact Hrn|].
    rewrite Hre. apply Qc_is_canon. vm_compute. reflexivity.
  - destruct (proj2 (export_value_coercion [unparseable_amount] unparseable_amount
                       2023 (or_introl eq_refl) eq_refl))
      as (r & Hr & Hry & Hrn & Hre).
    exists r. split; [exact Hr|]. split; [exact Hry|]. split; [exact Hrn|].
    rewrite Hre. apply Qc_is_canon. vm_compute. reflexivity.
Defined.

(** With export values 5 and -5 the total of 2023 is zero and the
    shares are 5 and -5. *)
Lemma zero_total_share_counterexample :
  globalTotal (aggregatedArray offsetting) !! 2023 = Some 0%Qc
  /\ In offsetting_A (processData offsetting)
  /\ 年份 offsetting_A = 2023
  /\ 市场份额 offsetting_A = Qc_of_Z 5
  /\ 市场份额 offsetting_A <> 0%Qc.
Proof.
  split; [concrete_eq|]. split; [rewrite offsetting_result; simpl; auto|].
  split; [reflexivity|]. split; [reflexivity|].
  vm_compute. discriminate.
Qed.

Lemma market_share_divisor_witness :
  In offsetting_A (processData offsetting)
  /\ exists t, globalTotal (aggregatedArray offsetting) !! 年份 offsetting_A = Some t
       /\ (if Qc_eqb t 0 then 1%Qc else t) <> 0%Qc
       /\ 市场份额 offsetting_A
          = (出口额 offsetting_A / (if Qc_eqb t 0 then 1 else t))%Qc.
Proof.
  assert (Hin : In offsetting_A (processData offsetting))
    by (rewrite offsetting_result; simpl; auto).
  split; [exact Hin|].
  destruct (market_share_divisor offsetting offsetting_A Hin)
    as (t & Ht & Hd & Hs & _).
  exists t. auto.
Defined.

Lemma previous_export_and_growth_witness :
  In result_2023_B (processData scenario)
  /\ (去年出口额 result_2023_B = 0%Qc <-> 同比增速 result_2023_B = None).
Proof.
  assert (Hin : In result_2023_B (processData scenario))
    by (rewrite scenario_result; simpl; auto).
  split; [exact Hin|].
  exact (proj1 (previous_export_and_growth scenario result_2023_B Hin)).
Defined.

(** The rows that the download of the scenario hands to the CSV writer
    have no column for the export value. *)
Lemma download_export_column_counterexample :
  List.map (List.map fst) (csvData (processData scenario)) = [csvColumns]
  /\ ~ In (js "出口额") csvColumns.
Proof.
  split.
  - rewrite scenario_result. reflexivity.
  - vm_compute. intuition discriminate.
Qed.

Example download_scenario_row :
  List.map (List.map snd) (csvData (processData scenario))
  = [[ CellNumber (Qc_of_Z 2023); CellText (js "A");
       CellNumber (Q2Qc (2 # 3)); CellNumber (Q2Qc (1 # 4));
       CellText (js "66.67%"); CellText (js "25.0%") ]].
Proof. rewrite scenario_result. concrete_eq. Qed.

(** ** Sums of a year in binary64 *)

Module Binary64Facts.
Import PrimFloat.
Local Open Scope float_scope.

(** C1 as stated, in binary64.  In one year A exports 0.1, B 0.2 and A
    again 0.4.  The aggregated records carry 0.5 for A and 0.2 for B;
    their sum, which is also the total that step 3 keeps for the year,
    is 0.7, while the sum of the three coerced values in the order of
    the input is the next number above 0.7: the two sums are not equal
    as numbers of the engine. *)
Lemma regrouped_sum_counterexample :
  List.map (fun r => (Binary64.年份 r, Binary64.贸易伙伴名称 r, Binary64.出口额 r))
    (Binary64.aggregatedArray Binary64.regrouping)
  = [ (2023%Z, js "A", 5 / 10); (2023%Z, js "B", 2 / 10) ]
  /\ Binary64.export_sum 2023 (Binary64.aggregatedArray Binary64.regrouping)
     = 7 / 10
  /\ Binary64.globalTotal (Binary64.aggregatedArray Binary64.regrouping) !! 2023%Z
     = Some (7 / 10)
  /\ Binary64.raw_sum 2023 Binary64.regrouping = next_up (7 / 10)
  /\ (Binary64.export_sum 2023 (Binary64.aggregatedArray Binary64.regrouping)
      =? Binary64.raw_sum 2023 Binary64.regrouping) = false.
Proof.
  split; [|split; [|split; [|split]]]; vm_compute; reflexivity.
Qed.
End Binary64Facts.

(** * Examples for the further properties *)

Example bcg_scenario :
  plotData (useMemo (processData scenario) 2023 initialState)
  = [plotRecord initialState (Q2Qc (2 # 3)) 0%Qc 0 result_2023_A].
Proof. rewrite scenario_result. concrete_eq. Qed.

Example trend_scenario :
  List.map (fun p => (TrendPoint.年份 p, this (TrendPoint.总出口额 p)))
           (LineChart.plotData (processData scenario))
  = [(Some 2022, 800 # 1); (Some 2023, 1500 # 1)].
Proof. rewrite scenario_result. reflexivity. Qed.

Example years_scenario :
  App.availableYears (processData scenario) = [2022; 2023].
Proof. rewrite scenario_result. reflexivity. Qed.

Lemma processData_keys_distinct_witness :
  processData scenario !! 1%nat = Some result_2023_A /\ 1%nat = 1%nat.
Proof.
  assert (Hlook : processData scenario !! 1%nat = Some result_2023_A)
    by (rewrite scenario_result; reflexivity).
  split; [exact Hlook|].
  exact (processData_keys_distinct scenario 1 1 result_2023_A result_2023_A
           Hlook Hlook eq_refl eq_refl).
Defined.

Lemma processData_permutation_witness :
  Permutation scenario [scenario_2023_B; scenario_2023_A; scenario_2022_A]
  /\ Permutation (processData scenario)
       (processData [scenario_2023_B; scenario_2023_A; scenario_2022_A]).
Proof.
  assert (Hperm : Permutation scenario
                    [scenario_2023_B; scenario_2023_A; scenario_2022_A])
    by apply perm_swap.
  split; [exact Hperm|].
  exact (processData_permutation _ _ Hperm).
Defined.

Lemma processData_year_range_witness :
  In result_2023_A (processData scenario) /\ -999 <= 2023 <= 9999.
Proof.
  assert (Hin : In result_2023_A (processData scenario))
    by (rewrite scenario_result; simpl; auto).
  split; [exact Hin|].
  exact (processData_year_range scenario result_2023_A Hin).
Defined.

Lemma processData_partner_non_empty_witness :
  In result_2023_B (processData scenario) /\ 贸易伙伴名称 result_2023_B <> [].
Proof.
  assert (Hin : In result_2023_B (processData scenario))
    by (rewrite scenario_result; simpl; auto).
  split; [exact Hin|].
  exact (proj1 (processData_partner_non_empty scenario result_2023_B Hin)).
Defined.

Lemma market_share_bounds_witness :
  In result_2023_A (processData scenario)
  /\ (0 <= 市场份额 result_2023_A <= 1)%Qc.
Proof.
  assert (Hin : In result_2023_A (processData scenario))
    by (rewrite scenario_result; simpl; auto).
  split; [exact Hin|].
  apply (market_share_bounds scenario result_2023_A Hin).
  rewrite scenario_result. intros p [<-|[<-|[<-|[]]]] _; vm_compute; discriminate.
Defined.

Lemma bcg_empty_without_previous_year_witness :
  (forall p, In p (processData scenario) -> 年份 p <> 2022 - 1)
  /\ plotData (useMemo (processData scenario) 2022 initialState) = [].
Proof.
  assert (Hprev : forall p, In p (processData scenario) -> 年份 p <> 2022 - 1).
  { rewrite scenario_result. intros p [<-|[<-|[<-|[]]]]; vm_compute; discriminate. }
  split; [exact Hprev|].
  exact (proj1 (bcg_empty_without_previous_year scenario 2022 initialState Hprev)).
Defined.

Lemma yPlot_clamped_witness :
  In (plotRecord initialState (Q2Qc (2 # 3)) 0%Qc 0 result_2023_A)
     (plotData (useMemo (processData scenario) 2023 initialState))
  /\ (yMin initialState
      <= yPlot (plotRecord initialState (Q2Qc (2 # 3)) 0%Qc 0 result_2023_A))%Qc.
Proof.
  assert (Hin : In (plotRecord initialState (Q2Qc (2 # 3)) 0%Qc 0 result_2023_A)
                   (plotData (useMemo (processData scenario) 2023 initialState)))
    by (rewrite bcg_scenario; now left).
  split; [exact Hin|].
  exact (proj1 (yPlot_clamped (processData scenario) 2023 initialState
                  _ (Q2Qc (1 # 4)) Hin eq_refl)).
Defined.

Lemma xDomain_contains_plot_witness :
  xDomain (plotData (useMemo (processData scenario) 2023 initialState))
  = Some (Q2Qc (2 # 5), Q2Qc (6 # 5))
  /\ (0 < Q2Qc (2 # 5))%Qc.
Proof.
  assert (Hdom : xDomain (plotData (useMemo (processData scenario) 2023 initialState))
                 = Some (Q2Qc (2 # 5), Q2Qc (6 # 5)))
    by (rewrite bcg_scenario; concrete_eq).
  split; [exact Hdom|].
  exact (proj1 (xDomain_contains_plot (processData scenario) 2023 initialState
                  _ _ Hdom)).
Defined.

Lemma country_filter_without_keywords_witness :
  forallb separator_or_space (countryFilter blank_filter) = true
  /\ filtered_by_country (processData scenario) 2023 blank_filter
     = filtered_by_share (processData scenario) 2023 blank_filter.
Proof.
  assert (Hall : forallb separator_or_space (countryFilter blank_filter) = true)
    by reflexivity.
  split; [exact Hall|].
  exact (proj2 (country_filter_without_keywords (processData scenario) 2023
                  blank_filter Hall)).
Defined.
